(** * The uploads provider of the web3.storage website

    A shallow embedding of
    [packages/website/components/contexts/uploadsContext.js]: the React
    provider that keeps the list of files being uploaded, starts one
    [client.put] per new file, and refreshes the account listing.

    React state is threaded explicitly.  Every call the provider makes to a
    collaborator (the progress hook, the storage client, the user context, the
    console) is emitted as a [Call], so that a run of the provider is a pure
    function from a state and a list of events to a state and a log. *)

From Stdlib Require Import String ZArith Bool Arith List Lia.
Import ListNotations.

(** ** Data *)

(** [export const STATUS = { PENDING: 'pending', ... }] *)
Inductive STATUS : Type := PENDING | UPLOADING | COMPLETED | FAILED.

Definition STATUS_value (s : STATUS) : string :=
  match s with
  | PENDING => "pending"
  | UPLOADING => "uploading"
  | COMPLETED => "completed"
  | FAILED => "failed"
  end.

(** [a === b] on two status strings. *)
Definition status_eqb (a b : STATUS) : bool :=
  String.eqb (STATUS_value a) (STATUS_value b).

(** [completed] and [failed] are the two terminal statuses (section 3 of the
    spec). *)
Definition terminal (s : STATUS) : bool :=
  status_eqb s COMPLETED || status_eqb s FAILED.

(** A browser [File] object.  [file_ref] is the address of the object: [===]
    on two files compares addresses and nothing else. *)
Record File : Type := mkFile {
  file_ref : nat;
  file_name : string;
  file_size : Z
}.

Definition same_file (a b : File) : bool := Nat.eqb (file_ref a) (file_ref b).

(** The payload of a rejected promise or of a thrown exception. *)
Definition Error : Type := string.

(** What [client.put] raises when [client] is still [undefined]. *)
Definition TypeError : Error :=
  "TypeError: Cannot read properties of undefined (reading 'put')"%string.

(** One value of [progress.files].  The provider reads [inputFile], [name]
    and [status]; the typedef is in [uploadProgressContext.js], so the byte
    count and the error are the fields section 3 of the spec gives an
    entry.  The provider only ever looks at [Object.values(progress.files)],
    which is kept here as a list. *)
Record FileProgress : Type := mkFileProgress {
  inputFile : File;
  name : string;
  status : STATUS;
  uploaded : Z;
  error : option Error
}.

(** The identity of an entry: the address of its input file. *)
Definition ident (e : FileProgress) : nat := file_ref (inputFile e).

Definition idents (l : list FileProgress) : list nat := map ident l.

(** The argument of [initialize] in [uploadFiles] is
    [Object.values(progress.files).concat(files)]: entries of
    [progress.files] followed by the files the caller has just passed. *)
Inductive Item : Type :=
| Entry (e : FileProgress)
| NewFile (f : File).

(** An instance of [Web3Storage].  [client_serial] tells apart two instances
    built from the same token. *)
Record Client : Type := mkClient {
  client_token : string;
  client_serial : nat
}.

(** A row of the uploads listing. *)
Record Upload : Type := mkUpload {
  upload_cid : string;
  upload_name : string
}.

(** [updatedUploads.meta.count] as JavaScript sees it. *)
Inductive JsNumber : Type :=
| JsUndefined
| JsNull
| JsNaN
| JsNum (z : Z).

(** Truthiness of [meta.count] in [if (updatedUploads.meta.count)]. *)
Definition truthy (v : JsNumber) : bool :=
  match v with
  | JsNum z => negb (Z.eqb z 0)
  | _ => false
  end.

Record UploadsPage : Type := mkPage {
  results : list Upload;
  meta_count : JsNumber
}.

(** A value held by a property of an argument object. *)
Inductive ArgValue : Type :=
| ArgUndefined
| ArgNumber (z : Z)
| ArgString (s : string).

(** A plain object: its own properties, in the order they were created. *)
Definition JsObject : Type := list (string * ArgValue).

(** [UploadArgs]: the caller passes what it likes. *)
Definition UploadArgs : Type := JsObject.

(** ** Calls to the collaborators *)

Inductive Call : Type :=
| GetToken
| NewWeb3Storage (token : string)
| Initialize (items : list Item)
| UpdateFileProgress (file : FileProgress) (n : Z)
| MarkFileCompleted (file : FileProgress)
| MarkFileFailed (file : FileProgress) (err : Error)
| ClientPut (c : Client) (f : File) (display : string)
| Refetch
| ConsoleError (err : Error)
| GetUploads (args : JsObject).

(** ** State of the provider *)

(** An invocation of [uploadFiles] suspended at [await getToken()].  The
    closure holds the [progress.files] of the render it was created in. *)
Record Invocation : Type := mkInvocation {
  inv_snapshot : list FileProgress;
  inv_files : list File
}.

Record Provider : Type := mkProvider {
  client : option Client;              (* the module-level [let client] *)
  constructed : nat;                   (* instances of Web3Storage built so far *)
  awaiting : list Invocation;          (* uploadFiles calls waiting for a token *)
  filesToUpload : list FileProgress;   (* useState([]) *)
  inflight : list FileProgress;        (* handlers waiting on client.put *)
  uploads : list Upload;               (* useState([]) *)
  totalUploads : JsNumber;             (* useState(0) *)
  isFetchingUploads : bool;            (* useState(false) *)
  fetchDate : option Z                 (* useState(undefined) *)
}.

Definition initial : Provider :=
  {| client := None; constructed := 0; awaiting := [];
     filesToUpload := []; inflight := [];
     uploads := []; totalUploads := JsNum 0;
     isFetchingUploads := false; fetchDate := None |}.

Definition set_client (c : option Client) (n : nat) (p : Provider) : Provider :=
  {| client := c; constructed := n; awaiting := awaiting p;
     filesToUpload := filesToUpload p; inflight := inflight p;
     uploads := uploads p; totalUploads := totalUploads p;
     isFetchingUploads := isFetchingUploads p; fetchDate := fetchDate p |}.

Definition set_awaiting (a : list Invocation) (p : Provider) : Provider :=
  {| client := client p; constructed := constructed p; awaiting := a;
     filesToUpload := filesToUpload p; inflight := inflight p;
     uploads := uploads p; totalUploads := totalUploads p;
     isFetchingUploads := isFetchingUploads p; fetchDate := fetchDate p |}.

Definition set_tracking (t i : list FileProgress) (p : Provider) : Provider :=
  {| client := client p; constructed := constructed p; awaiting := awaiting p;
     filesToUpload := t; inflight := i;
     uploads := uploads p; totalUploads := totalUploads p;
     isFetchingUploads := isFetchingUploads p; fetchDate := fetchDate p |}.

Definition set_listing (u : list Upload) (t : JsNumber) (b : bool)
    (d : option Z) (p : Provider) : Provider :=
  {| client := client p; constructed := constructed p; awaiting := awaiting p;
     filesToUpload := filesToUpload p; inflight := inflight p;
     uploads := u; totalUploads := t;
     isFetchingUploads := b; fetchDate := d |}.

(** ** uploadFiles *)

(** [initialize(Object.values(progress.files).concat(files))] *)
Definition uploadFiles_initialize (snapshot : list FileProgress)
    (files : list File) : list Call :=
  [Initialize (map Entry snapshot ++ map NewFile files)].

(** The part of [uploadFiles] that runs before the first [await]:
    [client || ...] either short-circuits and goes on to [initialize], or asks
    for a token and suspends. *)
Definition uploadFiles_begin (snapshot : list FileProgress) (files : list File)
    (p : Provider) : Provider * list Call :=
  match client p with
  | Some c => (set_client (Some c) (constructed p) p,
               uploadFiles_initialize snapshot files)
  | None => (set_awaiting (awaiting p ++ [mkInvocation snapshot files]) p,
             [GetToken])
  end.

Inductive TokenResult : Type :=
| TokenOk (token : string)
| TokenErr (err : Error).

Fixpoint drop_nth {A : Type} (k : nat) (l : list A) : list A :=
  match l, k with
  | [], _ => []
  | _ :: r, O => r
  | x :: r, S k' => x :: drop_nth k' r
  end.

(** The [k]-th suspended invocation resumes.  With a token it builds a new
    [Web3Storage], assigns it to [client] and calls [initialize]; the test
    [client || ...] was made before the [await] and is not made again.  When
    [getToken()] rejects, [uploadFiles] rejects and nothing else happens. *)
Definition uploadFiles_resume (k : nat) (r : TokenResult) (p : Provider)
    : Provider * list Call :=
  match nth_error (awaiting p) k with
  | None => (p, [])
  | Some inv =>
      let p' := set_awaiting (drop_nth k (awaiting p)) p in
      match r with
      | TokenOk token =>
          (set_client (Some (mkClient token (constructed p)))
                      (S (constructed p)) p',
           NewWeb3Storage token
             :: uploadFiles_initialize (inv_snapshot inv) (inv_files inv))
      | TokenErr _ => (p', [])
      end
  end.

(** ** clearUploadedFiles *)

(** [({ status }) => status !== STATUS.COMPLETED] *)
Definition not_completed (e : FileProgress) : bool :=
  negb (status_eqb (status e) COMPLETED).

(** [initialize(Object.values(progress.files).filter(...));
     return !!Object.values(progress.files).length;]
    Both lines read the [progress.files] of the current render. *)
Definition clearUploadedFiles (files : list FileProgress) : list Call * bool :=
  ([Initialize (map Entry (filter not_completed files))],
   negb (Nat.eqb (length files) 0)).

(** ** The upload effect *)

(** [!filesToUpload.find(({ inputFile: trackedInputFile }) =>
       trackedInputFile === inputFile)] *)
Definition untracked (tracked : list FileProgress) (e : FileProgress) : bool :=
  match find (fun t => same_file (inputFile t) (inputFile e)) tracked with
  | Some _ => false
  | None => true
  end.

Definition newFilesToUpload (files tracked : list FileProgress)
    : list FileProgress :=
  filter (untracked tracked) files.

(** The body of the [forEach] callback up to its [await].  With a client the
    handler calls [client.put] and suspends.  Without one, [client.put] raises
    a [TypeError] inside the [try], and the [catch] runs at once. *)
Definition start_upload (c : option Client) (file : FileProgress) : list Call :=
  match c with
  | Some cl => [ClientPut cl (inputFile file) (name file)]
  | None => [MarkFileFailed file TypeError; ConsoleError TypeError]
  end.

(** One run of the effect on the [progress.files] of the current render. *)
Definition effect (files : list FileProgress) (p : Provider)
    : Provider * list Call :=
  let new := newFilesToUpload files (filesToUpload p) in
  if negb (Nat.eqb (length new) 0) then
    (set_tracking (filesToUpload p ++ new)
                  (inflight p ++ match client p with
                                 | Some _ => new
                                 | None => []
                                 end) p,
     flat_map (start_upload (client p)) new)
  else (p, []).

(** [onStoredChunk: size => { updateFileProgress(file, size); }] *)
Definition onStoredChunk (file : FileProgress) (n : Z) : list Call :=
  [UpdateFileProgress file n].

Inductive PutOutcome : Type :=
| Stored
| Threw (err : Error).

(** How the promise of the [forEach] callback settles. *)
Inductive Completion : Type :=
| Returned
| Rethrown (err : Error).

(** The rest of the callback once [client.put] has settled:
    [catch (error) { markFileFailed(file, error); console.error(error);
     return; }] on rejection, [markFileCompleted(file); refetch();]
    otherwise. *)
Definition after_put (file : FileProgress) (o : PutOutcome)
    : list Call * Completion :=
  match o with
  | Threw err => ([MarkFileFailed file err; ConsoleError err], Returned)
  | Stored => ([MarkFileCompleted file; Refetch], Returned)
  end.

(** ** getUploads *)

(** [o[k] = v]: an existing property keeps its place and takes the new
    value, a new one goes last. *)
Fixpoint assign (k : string) (v : ArgValue) (o : JsObject) : JsObject :=
  match o with
  | [] => [(k, v)]
  | (k', v') :: rest =>
      if String.eqb k' k then (k', v) :: rest
      else (k', v') :: assign k v rest
  end.

(** [{ ...o, ...src }]: every own property of [src] is assigned in turn, a
    property whose value is [undefined] like any other. *)
Definition spread (o src : JsObject) : JsObject :=
  fold_left (fun acc kv => assign (fst kv) (snd kv) acc) src o.

(** [{ size: 10, sortBy: 'Date', page: 0, sortOrder: 'Desc', ...args }];
    spreading [undefined] adds nothing. *)
Definition uArgs (args : option UploadArgs) : JsObject :=
  spread [("size", ArgNumber 10); ("sortBy", ArgString "Date");
          ("page", ArgNumber 0); ("sortOrder", ArgString "Desc")]%string
         (match args with Some a => a | None => [] end).

(** [o[k]], when [o] has the property. *)
Fixpoint get (k : string) (o : JsObject) : option ArgValue :=
  match o with
  | [] => None
  | (k', v) :: rest => if String.eqb k' k then Some v else get k rest
  end.

(** What the last property named [k] in a list of properties holds. *)
Fixpoint last_given (k : string) (src : JsObject) : option ArgValue :=
  match src with
  | [] => None
  | (k', v) :: rest =>
      match last_given k rest with
      | Some x => Some x
      | None => if String.eqb k' k then Some v else None
      end
  end.

(** Up to [await getUploads(uArgs)]. *)
Definition getUploadsCallback_begin (args : option UploadArgs) (p : Provider)
    : Provider * list Call :=
  (set_listing (uploads p) (totalUploads p) true (fetchDate p) p,
   [GetUploads (uArgs args)]).

(** After the page has arrived; [now] is the value of [Date.now()].  Returns
    the new state and [updatedUploads.results]. *)
Definition getUploadsCallback_resume (updatedUploads : UploadsPage) (now : Z)
    (p : Provider) : Provider * list Upload :=
  let total :=
    if truthy (meta_count updatedUploads)
    then meta_count updatedUploads
    else totalUploads p in
  (set_listing (results updatedUploads) total false (Some now) p,
   results updatedUploads).

(** ** The progress hook *)

Module ProgressHook.

(** Modelled from the spec: [uploadProgressContext.js], the hook behind
    [progress.files], is not among the sources.  A file seen for the first
    time gets "a new pending entry" (section 4.1, submit), with no byte
    transferred and no error. *)
Definition pendingEntry (f : File) : FileProgress :=
  mkFileProgress f (file_name f) PENDING 0%Z None.

(** Modelled from the spec: an identity is present when some entry has that
    very file as its input. *)
Definition present (acc : list FileProgress) (f : File) : bool :=
  existsb (fun e => same_file (inputFile e) f) acc.

(** Modelled from the spec: [initialize] of the missing hook.  The provider
    hands over the full list it wants tracked, not a delta: entries of
    [progress.files] are kept as they are, and a file gets a new pending
    entry unless its identity is already present ("re-submission of an
    already-tracked identity is a no-op for that identity"). *)
Fixpoint initialize_onto (acc : list FileProgress) (items : list Item)
    : list FileProgress :=
  match items with
  | [] => acc
  | Entry e :: rest => initialize_onto (acc ++ [e]) rest
  | NewFile f :: rest =>
      if present acc f then initialize_onto acc rest
      else initialize_onto (acc ++ [pendingEntry f]) rest
  end.

(** Modelled from the spec: [initialize] builds the list from nothing. *)
Definition initialize (items : list Item) : list FileProgress :=
  initialize_onto [] items.

(** Modelled from the spec: a report names a file identity and reaches the
    entries for that file, no other. *)
Definition on_identity (file : FileProgress) (g : FileProgress -> FileProgress)
    (files : list FileProgress) : list FileProgress :=
  map (fun e => if same_file (inputFile e) (inputFile file) then g e else e)
      files.

(** Modelled from the spec: [updateFileProgress] of the missing hook is
    reportProgress, which "updates the byte counter for an uploading entry"
    and is a no-op on an entry that is not uploading. *)
Definition updateFileProgress (file : FileProgress) (n : Z)
    : list FileProgress -> list FileProgress :=
  on_identity file (fun e =>
    if status_eqb (status e) UPLOADING
    then mkFileProgress (inputFile e) (name e) UPLOADING n (error e)
    else e).

(** Modelled from the spec: [markFileCompleted] of the missing hook is
    reportCompleted, which "transitions the entry to completed" and fails
    silently when the entry is already terminal. *)
Definition markFileCompleted (file : FileProgress)
    : list FileProgress -> list FileProgress :=
  on_identity file (fun e =>
    if terminal (status e) then e
    else mkFileProgress (inputFile e) (name e) COMPLETED (uploaded e) (error e)).

(** Modelled from the spec: [markFileFailed] of the missing hook is
    reportFailed, which "transitions the entry to failed, recording the
    error". *)
Definition markFileFailed (file : FileProgress) (err : Error)
    : list FileProgress -> list FileProgress :=
  on_identity file (fun e =>
    mkFileProgress (inputFile e) (name e) FAILED (uploaded e) (Some err)).

(** Modelled from the spec: what a call of the provider does to
    [progress.files]; calls to other collaborators leave it alone. *)
Definition apply (files : list FileProgress) (c : Call) : list FileProgress :=
  match c with
  | Initialize items => initialize items
  | UpdateFileProgress file n => updateFileProgress file n files
  | MarkFileCompleted file => markFileCompleted file files
  | MarkFileFailed file err => markFileFailed file err files
  | _ => files
  end.

(** Modelled from the spec: the calls take effect in the order they are
    made. *)
Definition run (calls : list Call) (files : list FileProgress)
    : list FileProgress :=
  fold_left apply calls files.

End ProgressHook.

(** ** Events *)

(** What can happen to a mounted provider.  The events that read
    [progress.files] carry the value the current render holds. *)
Inductive Event : Type :=
| CallUploadFiles (snapshot : list FileProgress) (files : list File)
| TokenSettled (k : nat) (r : TokenResult)
| CallClearUploadedFiles (snapshot : list FileProgress)
| Render (files : list FileProgress)
| StoredChunk (k : nat) (n : Z)
| PutSettled (k : nat) (o : PutOutcome)
| CallGetUploads (args : option UploadArgs)
| GetUploadsSettled (updatedUploads : UploadsPage) (now : Z).

(** [StoredChunk k] and [PutSettled k] address the [k]-th handler still
    waiting on its [client.put]. *)
Definition step (ev : Event) (p : Provider) : Provider * list Call :=
  match ev with
  | CallUploadFiles snapshot files => uploadFiles_begin snapshot files p
  | TokenSettled k r => uploadFiles_resume k r p
  | CallClearUploadedFiles snapshot => (p, fst (clearUploadedFiles snapshot))
  | Render files => effect files p
  | StoredChunk k n =>
      match nth_error (inflight p) k with
      | Some file => (p, onStoredChunk file n)
      | None => (p, [])
      end
  | PutSettled k o =>
      match nth_error (inflight p) k with
      | Some file =>
          (set_tracking (filesToUpload p) (drop_nth k (inflight p)) p,
           fst (after_put file o))
      | None => (p, [])
      end
  | CallGetUploads args => getUploadsCallback_begin args p
  | GetUploadsSettled updatedUploads now =>
      (fst (getUploadsCallback_resume updatedUploads now p), [])
  end.

(** A run returns the final state and every call made, in order. *)
Fixpoint run (evs : list Event) (p : Provider) : Provider * list Call :=
  match evs with
  | [] => (p, [])
  | ev :: rest =>
      let (p1, calls1) := step ev p in
      let (p2, calls2) := run rest p1 in
      (p2, calls1 ++ calls2)
  end.

(** ** The provider together with the hook *)

(** What the page can do, and what the network can answer. *)
Inductive Action : Type :=
| UploadFiles (files : list File)
| Token (k : nat) (r : TokenResult)
| ClearUploadedFiles
| Chunk (k : nat) (n : Z)
| Settle (k : nat) (o : PutOutcome).

Definition react (a : Action) (files : list FileProgress) : Event :=
  match a with
  | UploadFiles fs => CallUploadFiles files fs
  | Token k r => TokenSettled k r
  | ClearUploadedFiles => CallClearUploadedFiles files
  | Chunk k n => StoredChunk k n
  | Settle k o => PutSettled k o
  end.

Record App : Type := mkApp {
  provider : Provider;
  progress_files : list FileProgress
}.

Definition mounted : App := mkApp initial [].

(** An action runs its handler on the current render; the hook takes the
    calls; React renders again and runs the effect on the new
    [progress.files].  The calls of the effect go to the hook as well. *)
Definition act (a : Action) (s : App) : App * list Call :=
  let (p1, calls1) := step (react a (progress_files s)) (provider s) in
  let files1 := ProgressHook.run calls1 (progress_files s) in
  let (p2, calls2) := effect files1 p1 in
  (mkApp p2 (ProgressHook.run calls2 files1), calls1 ++ calls2).

Fixpoint acts (l : list Action) (s : App) : App * list Call :=
  match l with
  | [] => (s, [])
  | a :: rest =>
      let (s1, calls1) := act a s in
      let (s2, calls2) := acts rest s1 in
      (s2, calls1 ++ calls2)
  end.

(** ** Sample data *)

Definition fileA : File := mkFile 1 "a.txt" 10.
Definition fileB : File := mkFile 2 "b.txt" 20.

(** Same name and size as [fileA], another object. *)
Definition fileA_again : File := mkFile 3 "a.txt" 10.

Definition entryA : FileProgress := ProgressHook.pendingEntry fileA.
Definition entryB : FileProgress := ProgressHook.pendingEntry fileB.

Definition completedA : FileProgress :=
  mkFileProgress fileA "a.txt" COMPLETED 10 None.
Definition uploadingB : FileProgress :=
  mkFileProgress fileB "b.txt" UPLOADING 5 None.

Definition someClient : Client := mkClient "token" 0.
Definition ready : Provider := set_client (Some someClient) 1 initial.

Definition entryA_again : FileProgress := ProgressHook.pendingEntry fileA_again.

(** ** Vocabulary of the statements *)

Definition is_refetch (c : Call) : bool :=
  match c with Refetch => true | _ => false end.

Definition is_completion (c : Call) : bool :=
  match c with MarkFileCompleted _ => true | _ => false end.

Definition is_construction (c : Call) : bool :=
  match c with NewWeb3Storage _ => true | _ => false end.

(** The calls of [client.put] made for the file [f]. *)
Definition is_put_of (f : File) (c : Call) : bool :=
  match c with ClientPut _ g _ => same_file g f | _ => false end.

Definition count (test : Call -> bool) (log : list Call) : nat :=
  length (filter test log).

(** Every [markFileCompleted] in the log is followed at once by [refetch],
    and [refetch] occurs nowhere else. *)
Fixpoint refetch_follows_completion (log : list Call) : bool :=
  match log with
  | [] => true
  | MarkFileCompleted _ :: rest =>
      match rest with
      | Refetch :: rest' => refetch_follows_completion rest'
      | _ => false
      end
  | Refetch :: _ => false
  | _ :: rest => refetch_follows_completion rest
  end.

(** The transfers that finish without error during a run. *)
Fixpoint successes (evs : list Event) (p : Provider) : nat :=
  match evs with
  | [] => 0
  | ev :: rest =>
      (match ev with
       | PutSettled k Stored =>
           match nth_error (inflight p) k with Some _ => 1 | None => 0 end
       | _ => 0
       end) + successes rest (fst (step ev p))
  end.

(** No call of [uploadFiles] is made while another one waits for its token. *)
Fixpoint paced (evs : list Event) (p : Provider) : bool :=
  match evs with
  | [] => true
  | ev :: rest =>
      (match ev with
       | CallUploadFiles _ _ => Nat.eqb (length (awaiting p)) 0
       | _ => true
       end) && paced rest (fst (step ev p))
  end.

(** The entry [e] as [markFileFailed] leaves it. *)
Definition failed_with (err : Error) (e : FileProgress) : FileProgress :=
  mkFileProgress (inputFile e) (name e) FAILED (uploaded e) (Some err).

(** The identities a call can change in [progress.files]; [initialize]
    replaces the whole list. *)
Definition touches (i : nat) (c : Call) : bool :=
  match c with
  | Initialize _ => true
  | UpdateFileProgress file _ => Nat.eqb (ident file) i
  | MarkFileCompleted file => Nat.eqb (ident file) i
  | MarkFileFailed file _ => Nat.eqb (ident file) i
  | _ => false
  end.

(** Neither a [refetch] nor a [markFileCompleted]. *)
Definition quiet (c : Call) : bool := negb (is_refetch c || is_completion c).

Definition trackingAB : Provider :=
  set_tracking [entryA; entryB] [entryA; entryB] ready.

(** How often the file [f] occurs among the inputs of a list of entries. *)
Definition occurrences (f : File) (l : list FileProgress) : nat :=
  length (filter (fun e => same_file (inputFile e) f) l).

(** Is the file [f] the input of some entry of [l]? *)
Definition has_file (f : File) (l : list FileProgress) : bool :=
  existsb (fun e => same_file (inputFile e) f) l.

(** At most one call of [uploadFiles] waits for a token, and none does once
    the client is there. *)
Definition one_at_a_time (p : Provider) : Prop :=
  length (awaiting p) <= 1 /\ (client p <> None -> awaiting p = []).

Definition completedB : FileProgress :=
  mkFileProgress fileB "b.txt" COMPLETED 5 None.

(** No call of [uploadFiles] is made while another one waits for its token. *)
Fixpoint paced_acts (l : list Action) (s : App) : bool :=
  match l with
  | [] => true
  | a :: rest =>
      (match a with
       | UploadFiles _ => Nat.eqb (length (awaiting (provider s))) 0
       | _ => true
       end) && paced_acts rest (fst (act a s))
  end.

(** What holds of the provider and the hook after any actions whatever. *)
Record orderly (p : Provider) (files : list FileProgress) : Prop := {
  entries_distinct : NoDup (idents files);
  tracked_distinct : NoDup (idents (filesToUpload p));
  no_entry_without_client : client p = None -> files = [];
  snapshots_empty : forall inv, In inv (awaiting p) -> inv_snapshot inv = []
}.

(** What holds of the provider and the hook between two actions. *)
Record consistent (p : Provider) (files : list FileProgress) : Prop := {
  distinct_entries : NoDup (idents files);
  distinct_handlers : NoDup (idents (inflight p));
  handlers_tracked :
    forall i, In i (idents (inflight p)) -> In i (idents (filesToUpload p));
  started_tracked :
    forall e, In e files -> status e <> PENDING ->
              In (ident e) (idents (filesToUpload p));
  settled_idle :
    forall e, In e files -> terminal (status e) = true ->
              ~ In (ident e) (idents (inflight p));
  no_client_no_entry : client p = None -> files = [] /\ inflight p = [];
  waiting_alone : one_at_a_time p;
  waiting_empty : forall inv, In inv (awaiting p) -> inv_snapshot inv = []
}.

Definition entryA_failed : FileProgress := failed_with "E"%string entryA.

(** ** Settled promises *)

(** How an awaited promise settles. *)
Inductive Outcome (A : Type) : Type :=
| Resolved (a : A)
| Rejected (err : Error).

Arguments Resolved {A} a.
Arguments Rejected {A} err.

(** [getUploadsCallback] from its [await] on, whichever way the promise of
    [getUploads(uArgs)] settles.  There is no [try] around the [await]: when
    the promise rejects, the rest of the function is skipped and the promise
    of [getUploadsCallback] rejects with the same error. *)
Definition getUploadsCallback_settle (r : Outcome UploadsPage) (now : Z)
    (p : Provider) : Provider * Outcome (list Upload) :=
  match r with
  | Resolved updatedUploads =>
      (fst (getUploadsCallback_resume updatedUploads now p),
       Resolved (snd (getUploadsCallback_resume updatedUploads now p)))
  | Rejected err => (p, Rejected err)
  end.

(** ** listPinned *)

(** The answer of [listPins]: [PinsList].  The provider never looks inside a
    [PinStatus], so its type is left open. *)
Record PinsList (P : Type) : Type := mkPinsList {
  pins_count : JsNumber;
  pins_results : list P
}.

Arguments mkPinsList {P} pins_count pins_results.
Arguments pins_count {P} p.
Arguments pins_results {P} p.

(** [pinned], [isFetchingPinned] and [fetchPinsDate]. *)
Record Pins (P : Type) : Type := mkPins {
  pinned : list P;                (* useState([]) *)
  isFetchingPinned : bool;        (* useState(false) *)
  fetchPinsDate : option Z        (* useState(undefined) *)
}.

Arguments mkPins {P} pinned isFetchingPinned fetchPinsDate.
Arguments pinned {P} p.
Arguments isFetchingPinned {P} p.
Arguments fetchPinsDate {P} p.

Definition no_pins {P : Type} : Pins P := mkPins [] false None.

(** Up to [await listPins(status, token)]; returns the arguments of the
    call. *)
Definition listPinnedCallback_begin {P : Type} (status token : string)
    (s : Pins P) : Pins P * (string * string) :=
  (mkPins (pinned s) true (fetchPinsDate s), (status, token)).

(** From the [await] on; [now] is the value of [Date.now()]. *)
Definition listPinnedCallback_settle {P : Type} (r : Outcome (PinsList P))
    (now : Z) (s : Pins P) : Pins P * Outcome (list P) :=
  match r with
  | Resolved pinsResponse =>
      let updatedPinned := pins_results pinsResponse in
      (mkPins updatedPinned false (Some now), Resolved updatedPinned)
  | Rejected err => (s, Rejected err)
  end.

Inductive PinsEvent (P : Type) : Type :=
| CallListPinned (status token : string)
| ListPinsSettled (r : Outcome (PinsList P)) (now : Z).

Arguments CallListPinned {P} status token.
Arguments ListPinsSettled {P} r now.

Definition pins_step {P : Type} (ev : PinsEvent P) (s : Pins P) : Pins P :=
  match ev with
  | CallListPinned status token => fst (listPinnedCallback_begin status token s)
  | ListPinsSettled r now => fst (listPinnedCallback_settle r now s)
  end.

Definition pins_run {P : Type} (evs : list (PinsEvent P)) (s : Pins P) : Pins P :=
  fold_left (fun s ev => pins_step ev s) evs s.

(** ** More vocabulary *)

Definition is_put (c : Call) : bool :=
  match c with ClientPut _ _ _ => true | _ => false end.

(** The calls that tell the hook how a transfer ended. *)
Definition is_verdict (c : Call) : bool :=
  match c with
  | MarkFileCompleted _ => true
  | MarkFileFailed _ _ => true
  | _ => false
  end.

(** The entry a call to the hook is about. *)
Definition reported (c : Call) : option FileProgress :=
  match c with
  | UpdateFileProgress file _ => Some file
  | MarkFileCompleted file => Some file
  | MarkFileFailed file _ => Some file
  | _ => None
  end.

Definition is_listing (ev : Event) : bool :=
  match ev with
  | CallGetUploads _ => true
  | GetUploadsSettled _ _ => true
  | _ => false
  end.

Definition is_get_uploads (c : Call) : bool :=
  match c with GetUploads _ => true | _ => false end.

(** The part of the state the uploads use, and the part the listing uses. *)
Definition tracking_of (p : Provider)
    : option Client * nat * list Invocation * list FileProgress
      * list FileProgress :=
  (client p, constructed p, awaiting p, filesToUpload p, inflight p).

Definition listing_of (p : Provider)
    : list Upload * JsNumber * bool * option Z :=
  (uploads p, totalUploads p, isFetchingUploads p, fetchDate p).

(** The pages that arrived during a run, in order. *)
Fixpoint pages_of (evs : list Event) : list UploadsPage :=
  match evs with
  | [] => []
  | GetUploadsSettled updatedUploads _ :: rest => updatedUploads :: pages_of rest
  | _ :: rest => pages_of rest
  end.

(** The count of the last page whose count is truthy, if there is one. *)
Fixpoint latest_count (pages : list UploadsPage) : option JsNumber :=
  match pages with
  | [] => None
  | pg :: rest =>
      match latest_count rest with
      | Some c => Some c
      | None => if truthy (meta_count pg) then Some (meta_count pg) else None
      end
  end.

Definition is_response (ev : Event) : bool :=
  match ev with GetUploadsSettled _ _ => true | _ => false end.

Definition is_pins_answer {P : Type} (ev : PinsEvent P) : bool :=
  match ev with ListPinsSettled (Resolved _) _ => true | _ => false end.

Definition is_pins_call {P : Type} (ev : PinsEvent P) : bool :=
  match ev with CallListPinned _ _ => true | _ => false end.

Definition pageOf (n : Z) : UploadsPage :=
  mkPage [mkUpload "bafy1" "a.txt"] (JsNum n).

Definition emptyPage : UploadsPage := mkPage [] (JsNum 0).

(** * The migration [023-add-user-customer-table.sql] *)

Module Migration.

Inductive SqlType : Type := BIGSERIAL | BIGINT | TEXT.

Inductive Value : Type :=
| Null
| Int (z : Z)
| Text (s : string).

(** A column as [CREATE TABLE] declares it. *)
Record Column : Type := mkColumn {
  col_name : string;
  col_type : SqlType;
  col_primary_key : bool;
  col_not_null : bool;
  col_unique : bool;
  col_references : option (string * string)
}.

Record TableDef : Type := mkTableDef {
  table_name : string;
  table_columns : list Column
}.

(** [CREATE TABLE IF NOT EXISTS user_customer
     ( id BIGSERIAL PRIMARY KEY,
       user_id BIGINT NOT NULL UNIQUE REFERENCES public.user (id),
       customer_id TEXT NOT NULL UNIQUE );] *)
Definition user_customer : TableDef :=
  mkTableDef "user_customer"
    [ mkColumn "id" BIGSERIAL true false false None;
      mkColumn "user_id" BIGINT false true true (Some ("public.user", "id"))%string;
      mkColumn "customer_id" TEXT false true true None ].

(** A table: its definition, its rows in the order of insertion, and the next
    value of the sequence behind its serial column. *)
Record Table : Type := mkTable {
  t_def : TableDef;
  t_rows : list (list Value);
  t_next : Z
}.

Definition Database : Type := list Table.

Definition named (name : string) (t : Table) : bool :=
  String.eqb (table_name (t_def t)) name.

Definition lookup (name : string) (db : Database) : option Table :=
  find (named name) db.

Definition is_serial (c : Column) : bool :=
  match col_type c with BIGSERIAL => true | _ => false end.

(** [PRIMARY KEY], [NOT NULL] and a serial type each forbid [NULL]. *)
Definition mandatory (c : Column) : bool :=
  col_primary_key c || col_not_null c || is_serial c.

(** [PRIMARY KEY] and [UNIQUE] each forbid two rows with the same value. *)
Definition distinct (c : Column) : bool :=
  col_primary_key c || col_unique c.

(** [BIGSERIAL] is [BIGINT] with a default; an integer column and a text
    column cannot be compared. *)
Definition integral (ty : SqlType) : bool :=
  match ty with TEXT => false | _ => true end.

Definition comparable (a b : SqlType) : bool :=
  Bool.eqb (integral a) (integral b).

(** A column that [REFERENCES] may point to: it is there, it is a primary
    key or unique, and its type can be compared with [ty]. *)
Definition key_column (name : string) (ty : SqlType) (d : TableDef) : bool :=
  existsb (fun c => String.eqb (col_name c) name && distinct c
                    && comparable (col_type c) ty)
          (table_columns d).

(** Every [REFERENCES] of the definition names a key column of a table that
    is there. *)
Definition references_resolve (d : TableDef) (db : Database) : bool :=
  forallb (fun c =>
             match col_references c with
             | None => true
             | Some (t, k) =>
                 match lookup t db with
                 | Some rt => key_column k (col_type c) (t_def rt)
                 | None => false
                 end
             end)
          (table_columns d).

Inductive Notice : Type :=
| Created
| AlreadyExists
| Failed (message : string).

(** [CREATE TABLE IF NOT EXISTS]: a table of that name, whatever its shape,
    makes the statement a no-op; a serial sequence starts at 1. *)
Definition create_table_if_not_exists (d : TableDef) (db : Database)
    : Database * Notice :=
  match lookup (table_name d) db with
  | Some _ => (db, AlreadyExists)
  | None =>
      if references_resolve d db
      then (db ++ [mkTable d [] 1], Created)
      else (db, Failed "referenced key does not exist")
  end.

Definition migrate (db : Database) : Database * Notice :=
  create_table_if_not_exists user_customer db.

(** ** Inserting a row *)

Definition is_null (v : Value) : bool :=
  match v with Null => true | _ => false end.

Definition value_eqb (a b : Value) : bool :=
  match a, b with
  | Null, Null => true
  | Int x, Int y => Z.eqb x y
  | Text x, Text y => String.eqb x y
  | _, _ => false
  end.

(** Values are given as they are stored, after the conversion PostgreSQL
    makes on assignment.  [BIGINT] and [BIGSERIAL] hold signed 64-bit
    integers, [TEXT] holds text, and [NULL] is of every type. *)
Definition fits (ty : SqlType) (v : Value) : bool :=
  match v with
  | Null => true
  | Int z =>
      match ty with
      | TEXT => false
      | _ => Z.leb (- 2 ^ 63) z && Z.ltb z (2 ^ 63)
      end
  | Text _ => match ty with TEXT => true | _ => false end
  end.

(** The values of the [i]-th column. *)
Definition column (i : nat) (rows : list (list Value)) : list Value :=
  map (fun r => nth i r Null) rows.

Fixpoint column_index (name : string) (cols : list Column) : option nat :=
  match cols with
  | [] => None
  | c :: rest =>
      if String.eqb (col_name c) name then Some 0
      else option_map S (column_index name rest)
  end.

(** The values a [REFERENCES t (k)] may take. *)
Definition referenced (ref : string * string) (db : Database) : list Value :=
  match lookup (fst ref) db with
  | Some rt =>
      match column_index (snd ref) (table_columns (t_def rt)) with
      | Some j => column j (t_rows rt)
      | None => []
      end
  | None => []
  end.

Definition member (v : Value) (l : list Value) : bool :=
  existsb (value_eqb v) l.

(** May [v] go into column [c], the [i]-th of [t]? *)
Definition admits (db : Database) (t : Table) (i : nat) (c : Column)
    (v : Value) : bool :=
  fits (col_type c) v
  && (negb (mandatory c) || negb (is_null v))
  && (negb (distinct c) || is_null v
      || negb (member v (column i (t_rows t))))
  && match col_references c with
     | None => true
     | Some ref => is_null v || member v (referenced ref db)
     end.

Fixpoint admits_all (db : Database) (t : Table) (i : nat)
    (cols : list Column) (row : list Value) : bool :=
  match cols, row with
  | [], [] => true
  | c :: cols', v :: row' =>
      admits db t i c v && admits_all db t (S i) cols' row'
  | _, _ => false
  end.

(** A value left out, or missing at the end of the list, takes the default:
    the next value of the sequence in a serial column, [NULL] elsewhere. *)
Fixpoint fill (next : Z) (cols : list Column) (given : list (option Value))
    : list Value :=
  match cols with
  | [] => []
  | c :: cols' =>
      match hd None given with
      | Some v => v
      | None => if is_serial c then Int next else Null
      end :: fill next cols' (tl given)
  end.

(** Does the row take a value from the sequence? *)
Fixpoint draws (cols : list Column) (given : list (option Value)) : bool :=
  match cols with
  | [] => false
  | c :: cols' =>
      match hd None given with
      | None => is_serial c || draws cols' (tl given)
      | Some _ => draws cols' (tl given)
      end
  end.

(** Is every value of the type of its column? *)
Fixpoint typed (cols : list Column) (row : list Value) : bool :=
  match cols, row with
  | [], [] => true
  | c :: cols', v :: row' => fits (col_type c) v && typed cols' row'
  | _, _ => false
  end.

Definition replace (name : string) (t' : Table) (db : Database) : Database :=
  map (fun t => if named name t then t' else t) db.

(** [INSERT INTO name VALUES (...)]: the values in the order of the
    columns, [None] for [DEFAULT]; there may be fewer values than columns,
    not more.  A row of the wrong types is refused before the statement
    runs; otherwise a value drawn from the sequence is spent even when a
    constraint refuses the row. *)
Definition insert (name : string) (given : list (option Value))
    (db : Database) : Database * option string :=
  match lookup name db with
  | None => (db, Some "relation does not exist"%string)
  | Some t =>
      let cols := table_columns (t_def t) in
      if Nat.ltb (length cols) (length given)
      then (db, Some "more expressions than target columns"%string)
      else
        let row := fill (t_next t) cols given in
        let next :=
          if typed cols row && draws cols given
          then (t_next t + 1)%Z else t_next t in
        if admits_all db t 0 cols row
        then (replace name (mkTable (t_def t) (t_rows t ++ [row]) next) db,
              None)
        else (replace name (mkTable (t_def t) (t_rows t) next) db,
              Some "constraint violated"%string)
  end.

Inductive Statement : Type :=
| Insert (name : string) (given : list (option Value))
| Migrate.

Definition exec (s : Statement) (db : Database) : Database :=
  match s with
  | Insert name given => fst (insert name given db)
  | Migrate => fst (migrate db)
  end.

Definition exec_all (l : list Statement) (db : Database) : Database :=
  fold_left (fun db s => exec s db) l db.

(** ** What a sound table looks like *)

Definition non_null (l : list Value) : list Value :=
  filter (fun v => negb (is_null v)) l.

Definition column_sound (t : Table) (i : nat) (c : Column) : Prop :=
  (distinct c = true -> NoDup (non_null (column i (t_rows t)))) /\
  (mandatory c = true -> ~ In Null (column i (t_rows t))).

Definition table_sound (t : Table) : Prop :=
  forall i c, nth_error (table_columns (t_def t)) i = Some c ->
              column_sound t i c.

Definition sound (db : Database) : Prop := Forall table_sound db.

(** Every value stored under a [REFERENCES] is [NULL] or a value of the
    column it refers to. *)
Definition refs_hold (db : Database) (t : Table) : Prop :=
  forall i c ref v,
    nth_error (table_columns (t_def t)) i = Some c ->
    col_references c = Some ref ->
    In v (column i (t_rows t)) ->
    v = Null \/ In v (referenced ref db).

(** A table [public.user] with three users. *)
Definition users : Table :=
  mkTable (mkTableDef "public.user"
             [mkColumn "id" BIGSERIAL true false false None;
              mkColumn "email" TEXT false true true None])
          [[Int 1; Text "a@x"]; [Int 2; Text "b@x"]; [Int 3; Text "c@x"]] 4.

End Migration.

(** * Properties *)

(** ** Basic facts *)

Lemma status_eqb_true (a b : STATUS) : status_eqb a b = true <-> a = b.
Proof.
  destruct a, b; vm_compute; split; intro H; try reflexivity; discriminate H.
Qed.

Lemma not_completed_iff (e : FileProgress) :
  not_completed e = true <-> status e <> COMPLETED.
Proof.
  unfold not_completed.
  rewrite negb_true_iff, <- not_true_iff_false, status_eqb_true.
  reflexivity.
Qed.

Lemma same_file_true (a b : File) :
  same_file a b = true <-> file_ref a = file_ref b.
Proof. unfold same_file. apply Nat.eqb_eq. Qed.

Lemma same_file_false (a b : File) :
  same_file a b = false <-> file_ref a <> file_ref b.
Proof. unfold same_file. apply Nat.eqb_neq. Qed.

Lemma count_app (test : Call -> bool) (l1 l2 : list Call) :
  count test (l1 ++ l2) = count test l1 + count test l2.
Proof. unfold count. rewrite filter_app, length_app. reflexivity. Qed.

Lemma run_app (evs1 evs2 : list Event) (p : Provider) :
  run (evs1 ++ evs2) p =
  (fst (run evs2 (fst (run evs1 p))),
   snd (run evs1 p) ++ snd (run evs2 (fst (run evs1 p)))).
Proof.
  revert p. induction evs1 as [|ev evs1 IH]; intro p; simpl.
  - destruct (run evs2 p); reflexivity.
  - destruct (step ev p) as [p1 c1]. rewrite IH.
    destruct (run evs1 p1) as [p2 c2]; simpl.
    rewrite app_assoc. reflexivity.
Qed.

(** ** The hook on lists of entries *)

Lemma initialize_onto_entries (l : list FileProgress) :
  forall acc items,
    ProgressHook.initialize_onto acc (map Entry l ++ items) =
    ProgressHook.initialize_onto (acc ++ l) items.
Proof.
  induction l as [|e l IH]; intros acc items; simpl.
  - rewrite app_nil_r. reflexivity.
  - rewrite IH, <- app_assoc. reflexivity.
Qed.

Lemma initialize_entries (l : list FileProgress) :
  ProgressHook.initialize (map Entry l) = l.
Proof.
  unfold ProgressHook.initialize.
  rewrite <- (app_nil_r (map Entry l)), initialize_onto_entries.
  reflexivity.
Qed.

Lemma on_identity_nth file g files k :
  nth_error (ProgressHook.on_identity file g files) k =
  option_map
    (fun e => if same_file (inputFile e) (inputFile file) then g e else e)
    (nth_error files k).
Proof. unfold ProgressHook.on_identity. apply nth_error_map. Qed.

(** ** clearUploadedFiles *)

(** C1, as amended: [clearUploadedFiles] leaves in [progress.files] all and
    only the entries whose status is not [completed], and it returns [false]
    if and only if there was no entry at all when it was called. *)
Theorem clearUploadedFiles_keeps_others (files : list FileProgress) :
  let remaining :=
    ProgressHook.run (fst (clearUploadedFiles files)) files in
  remaining = filter not_completed files /\
  (forall e, In e remaining <-> In e files /\ status e <> COMPLETED) /\
  (snd (clearUploadedFiles files) = false <-> files = []).
Proof.
  cbn -[filter]. rewrite initialize_entries.
  split; [reflexivity|]. split.
  - intro e. rewrite filter_In, not_completed_iff. reflexivity.
  - destruct files; simpl; split; intro H; try reflexivity; discriminate H.
Qed.

(** C1, as stated, fails: with one completed entry nothing remains after
    the call, and yet the call returns [true]. *)
Lemma clearUploadedFiles_true_on_emptied :
  ProgressHook.run (fst (clearUploadedFiles [completedA])) [completedA] = [] /\
  snd (clearUploadedFiles [completedA]) = true.
Proof. split; reflexivity. Qed.

(** ** getUploads *)

(** C10: when the page arrives, [uploads] becomes the fetched results; with
    a count of zero, or any other falsy count, [totalUploads] keeps its
    value, and it takes the fetched count only when that is a number other
    than zero. *)
Theorem getUploads_keeps_total_on_falsy_count
    (updatedUploads : UploadsPage) (now : Z) (p : Provider) :
  let p' := fst (getUploadsCallback_resume updatedUploads now p) in
  uploads p' = results updatedUploads /\
  snd (getUploadsCallback_resume updatedUploads now p) = results updatedUploads /\
  totalUploads p' =
    match meta_count updatedUploads with
    | JsNum z => if Z.eqb z 0 then totalUploads p else JsNum z
    | _ => totalUploads p
    end.
Proof.
  simpl. repeat split.
  destruct (meta_count updatedUploads) as [| | |z]; simpl; try reflexivity.
  destruct (Z.eqb z 0); reflexivity.
Qed.

(** ** Tracked and untracked entries *)

Lemma untracked_true (T : list FileProgress) (e : FileProgress) :
  untracked T e = true <-> ~ In (ident e) (idents T).
Proof.
  unfold untracked, idents.
  destruct (find _ T) as [t|] eqn:F; split; intro H.
  - discriminate H.
  - exfalso. apply H. apply find_some in F. destruct F as [Hin Hs].
    apply same_file_true in Hs. apply in_map_iff.
    exists t. split; [exact Hs | exact Hin].
  - intro Hin. apply in_map_iff in Hin. destruct Hin as [t [Hid Hin]].
    pose proof (find_none _ _ F t Hin) as Hs. cbv beta in Hs.
    apply same_file_false in Hs. apply Hs. exact Hid.
  - reflexivity.
Qed.

Lemma untracked_false (T : list FileProgress) (e : FileProgress) :
  untracked T e = false <-> In (ident e) (idents T).
Proof.
  rewrite <- not_true_iff_false, untracked_true.
  split.
  - intro H. destruct (in_dec Nat.eq_dec (ident e) (idents T)) as [Hin|Hn].
    + exact Hin.
    + exfalso. exact (H Hn).
  - intros H Hn. exact (Hn H).
Qed.

Lemma new_files_untracked (files T : list FileProgress) (e : FileProgress) :
  In e (newFilesToUpload files T) <-> In e files /\ ~ In (ident e) (idents T).
Proof.
  unfold newFilesToUpload. rewrite filter_In, untracked_true. reflexivity.
Qed.

Lemma effect_unfold (files : list FileProgress) (p : Provider) :
  effect files p =
  (set_tracking
     (filesToUpload p ++ newFilesToUpload files (filesToUpload p))
     (inflight p ++ match client p with
                    | Some _ => newFilesToUpload files (filesToUpload p)
                    | None => []
                    end) p,
   flat_map (start_upload (client p))
            (newFilesToUpload files (filesToUpload p)))
  \/ (newFilesToUpload files (filesToUpload p) = [] /\ effect files p = (p, [])).
Proof.
  unfold effect.
  destruct (newFilesToUpload files (filesToUpload p)) as [|e new] eqn:E.
  - right. split; reflexivity.
  - left. reflexivity.
Qed.

Lemma effect_tracking (files : list FileProgress) (p : Provider) :
  filesToUpload (fst (effect files p)) =
  filesToUpload p ++ newFilesToUpload files (filesToUpload p).
Proof.
  destruct (effect_unfold files p) as [E|[N E]]; rewrite E; simpl.
  - reflexivity.
  - rewrite N, app_nil_r. reflexivity.
Qed.

Lemma effect_calls (files : list FileProgress) (p : Provider) :
  snd (effect files p) =
  flat_map (start_upload (client p))
           (newFilesToUpload files (filesToUpload p)).
Proof.
  destruct (effect_unfold files p) as [E|[N E]]; rewrite E; simpl.
  - reflexivity.
  - rewrite N. reflexivity.
Qed.

Lemma effect_client (files : list FileProgress) (p : Provider) :
  client (fst (effect files p)) = client p.
Proof.
  destruct (effect_unfold files p) as [E|[N E]]; rewrite E; reflexivity.
Qed.

(** Once the effect has run on a list, running it again on the same list
    finds nothing new: it is enough to run it once after each change. *)
Lemma effect_settles (files : list FileProgress) (p : Provider) :
  effect files (fst (effect files p)) = (fst (effect files p), []).
Proof.
  assert (Hidle : forall q, newFilesToUpload files (filesToUpload q) = [] ->
                            effect files q = (q, [])).
  { intros q Hq. unfold effect. rewrite Hq. reflexivity. }
  apply Hidle.
  assert (N : newFilesToUpload files (filesToUpload (fst (effect files p))) = []).
  { rewrite effect_tracking.
    destruct (newFilesToUpload files
                (filesToUpload p ++ newFilesToUpload files (filesToUpload p)))
      as [|e l] eqn:F; [reflexivity|].
    assert (He : In e (e :: l)) by (left; reflexivity).
    rewrite <- F in He. apply new_files_untracked in He.
    destruct He as [Hin Hn]. exfalso. apply Hn.
    unfold idents. rewrite map_app. apply in_or_app.
    destruct (in_dec Nat.eq_dec (ident e) (idents (filesToUpload p)))
      as [Ht|Ht]; [left; exact Ht | right].
    apply in_map. apply new_files_untracked. split; assumption. }
  exact N.
Qed.

(** ** What a call leaves alone *)

Lemma on_identity_frame file g files k e :
  nth_error files k = Some e ->
  Nat.eqb (ident file) (ident e) = false ->
  nth_error (ProgressHook.on_identity file g files) k = Some e.
Proof.
  intros Hk Hne. rewrite on_identity_nth, Hk. simpl.
  unfold same_file. fold (ident e). fold (ident file).
  rewrite Nat.eqb_sym, Hne. reflexivity.
Qed.

Lemma hook_run_frame (calls : list Call) :
  forall files k e,
    nth_error files k = Some e ->
    forallb (fun c => negb (touches (ident e) c)) calls = true ->
    nth_error (ProgressHook.run calls files) k = Some e.
Proof.
  induction calls as [|c calls IH]; intros files k e Hk Hq; simpl.
  - exact Hk.
  - simpl in Hq. apply andb_true_iff in Hq. destruct Hq as [Hc Hq].
    apply negb_true_iff in Hc.
    apply IH; [|exact Hq].
    destruct c; simpl in Hc |- *; try exact Hk; try discriminate Hc;
      apply on_identity_frame; assumption.
Qed.

Lemma puts_change_nothing (c : Client) (new files : list FileProgress) :
  ProgressHook.run (flat_map (start_upload (Some c)) new) files = files.
Proof.
  induction new as [|e new IH]; simpl; [reflexivity | exact IH].
Qed.

(** ** Submitting a list again *)

Lemma start_upload_of_new_is_not_tracked (c : option Client)
    (T new : list FileProgress) (t : FileProgress) :
  In t T ->
  (forall e, In e new -> ~ In (ident e) (idents T)) ->
  count (is_put_of (inputFile t)) (flat_map (start_upload c) new) = 0.
Proof.
  intros Ht Hnew. induction new as [|e new IH]; [reflexivity|].
  simpl. rewrite count_app, IH.
  - assert (He : same_file (inputFile e) (inputFile t) = false).
    { apply same_file_false. intro Heq. apply (Hnew e (or_introl eq_refl)).
      unfold idents. apply in_map_iff. exists t. split; [|exact Ht].
      unfold ident. symmetry. exact Heq. }
    destruct c; unfold count; simpl; rewrite ?He; reflexivity.
  - intros x Hx. apply Hnew. right. exact Hx.
Qed.

Lemma start_upload_touches_new_only (c : option Client)
    (new : list FileProgress) (i : nat) :
  (forall e, In e new -> ident e <> i) ->
  forallb (fun c => negb (touches i c)) (flat_map (start_upload c) new) = true.
Proof.
  intro Hnew. induction new as [|e new IH]; [reflexivity|].
  simpl. rewrite forallb_app, IH.
  - assert (He : Nat.eqb (ident e) i = false).
    { apply Nat.eqb_neq. apply Hnew. left. reflexivity. }
    destruct c; simpl; rewrite ?He; reflexivity.
  - intros x Hx. apply Hnew. right. exact Hx.
Qed.

(** C3: one run of the effect on a submitted list keeps [filesToUpload] as a
    prefix and appends the entries whose identity is not tracked yet; it
    calls [client.put] for no tracked file; every entry of [progress.files]
    with a tracked identity keeps its place, status, byte count and error;
    and, the client being there, the calls made are exactly one
    [client.put] per appended entry. *)
Theorem resubmission_leaves_tracked_alone
    (files : list FileProgress) (p : Provider) :
  let T := filesToUpload p in
  let calls := snd (effect files p) in
  filesToUpload (fst (effect files p)) = T ++ newFilesToUpload files T /\
  (forall e, In e (newFilesToUpload files T) <->
             In e files /\ untracked T e = true) /\
  (forall t, In t T -> count (is_put_of (inputFile t)) calls = 0) /\
  (forall k e, nth_error files k = Some e -> untracked T e = false ->
               nth_error (ProgressHook.run calls files) k = Some e) /\
  (forall c, client p = Some c ->
             calls = map (fun e => ClientPut c (inputFile e) (name e))
                         (newFilesToUpload files T)).
Proof.
  cbv zeta. rewrite effect_tracking, effect_calls.
  split; [reflexivity|]. split; [|split; [|split]].
  - intro e. unfold newFilesToUpload. apply filter_In.
  - intros t Ht. apply start_upload_of_new_is_not_tracked with (T := filesToUpload p).
    + exact Ht.
    + intros e He. apply new_files_untracked in He. apply He.
  - intros k e Hk Hu. apply hook_run_frame; [exact Hk|].
    apply start_upload_touches_new_only.
    intros x Hx Heq. apply new_files_untracked in Hx. destruct Hx as [_ Hx].
    apply untracked_false in Hu. apply Hx. rewrite Heq. exact Hu.
  - intros c Hc. rewrite Hc.
    induction (newFilesToUpload files (filesToUpload p)) as [|e new IH];
      simpl; [reflexivity | rewrite IH; reflexivity].
Qed.

(** Scenario of the spec: A is tracked and uploading; submitting [A; B]
    starts B only. *)
Lemma resubmission_example :
  snd (effect [uploadingB; entryA] (set_tracking [uploadingB] [uploadingB] ready))
  = [ClientPut someClient fileA "a.txt"].
Proof.
  apply (proj2 (proj2 (proj2 (proj2
    (resubmission_leaves_tracked_alone [uploadingB; entryA]
       (set_tracking [uploadingB] [uploadingB] ready)))))).
  reflexivity.
Defined.

(** ** A transfer that fails *)

(** C5: when [client.put] of a waiting handler raises [err], the handler
    calls [markFileFailed(file, err)] and [console.error(err)] and nothing
    else, so neither [markFileCompleted] nor [refetch]; it then returns, its
    promise is fulfilled whatever the outcome, and the handler is gone; the
    hook turns every entry with the identity of [file] into a failed entry
    that records [err].  The same holds for the [TypeError] raised when there
    is no client. *)
Theorem transfer_error_marks_failed
    (p : Provider) (k : nat) (file : FileProgress) (err : Error)
    (files : list FileProgress) :
  nth_error (inflight p) k = Some file ->
  let calls := snd (step (PutSettled k (Threw err)) p) in
  calls = [MarkFileFailed file err; ConsoleError err] /\
  count is_completion calls = 0 /\
  count is_refetch calls = 0 /\
  (forall o, snd (after_put file o) = Returned) /\
  inflight (fst (step (PutSettled k (Threw err)) p)) = drop_nth k (inflight p) /\
  ProgressHook.run calls files =
    map (fun e => if same_file (inputFile e) (inputFile file)
                  then failed_with err e else e) files /\
  start_upload None file = [MarkFileFailed file TypeError; ConsoleError TypeError].
Proof.
  intro Hk. cbv zeta. simpl. rewrite Hk. simpl.
  repeat split. intro o. destruct o; reflexivity.
Qed.

Lemma transfer_error_marks_failed_witness :
  nth_error (inflight trackingAB) 0 = Some entryA /\
  ProgressHook.run (snd (step (PutSettled 0 (Threw "E"%string)) trackingAB))
                   [entryA; entryB]
  = [failed_with "E"%string entryA; entryB].
Proof.
  split; [reflexivity|].
  pose proof (transfer_error_marks_failed trackingAB 0 entryA "E"%string
                [entryA; entryB] eq_refl) as H.
  cbv zeta in H.
  destruct H as [_ [_ [_ [_ [_ [H _]]]]]].
  rewrite H. reflexivity.
Defined.

(** ** Refreshing the account listing *)

Lemma quiet_calls (log : list Call) :
  forallb quiet log = true ->
  count is_refetch log = 0 /\ count is_completion log = 0 /\
  refetch_follows_completion log = true.
Proof.
  induction log as [|c log IH]; intro H; [repeat split|].
  simpl in H. apply andb_true_iff in H. destruct H as [Hc H].
  destruct (IH H) as [R [C F]].
  unfold count in *.
  destruct c; simpl in *; try discriminate Hc; repeat split; assumption.
Qed.

Lemma refetch_follows_completion_app (l1 : list Call) :
  forall n l2,
    length l1 <= n ->
    refetch_follows_completion l1 = true ->
    refetch_follows_completion l2 = true ->
    refetch_follows_completion (l1 ++ l2) = true.
Proof.
  intros n. revert l1.
  induction n as [|n IH]; intros l1 l2 Hlen H1 H2.
  - destruct l1; [exact H2 | simpl in Hlen; lia].
  - destruct l1 as [|c l1]; [exact H2|].
    simpl in Hlen.
    destruct c; simpl in H1 |- *;
      try (apply IH; [lia | exact H1 | exact H2]);
      try discriminate H1.
    destruct l1 as [|c' l1]; [discriminate H1|].
    destruct c'; try discriminate H1.
    simpl. apply IH; [simpl in Hlen; lia | exact H1 | exact H2].
Qed.

Lemma start_upload_quiet (c : option Client) (new : list FileProgress) :
  forallb quiet (flat_map (start_upload c) new) = true.
Proof.
  induction new as [|e new IH]; [reflexivity|].
  simpl. rewrite forallb_app, IH. destruct c; reflexivity.
Qed.

Lemma step_refetch (ev : Event) (p : Provider) :
  let calls := snd (step ev p) in
  count is_refetch calls = successes [ev] p /\
  count is_completion calls = successes [ev] p /\
  refetch_follows_completion calls = true.
Proof.
  cbv zeta. destruct ev; simpl.
  - unfold uploadFiles_begin. destruct (client p); repeat split.
  - unfold uploadFiles_resume. destruct (nth_error (awaiting p) k);
      [destruct r|]; repeat split.
  - repeat split.
  - rewrite effect_calls. apply (quiet_calls _ (start_upload_quiet _ _)).
  - destruct (nth_error (inflight p) k); repeat split.
  - destruct o; destruct (nth_error (inflight p) k); simpl; repeat split.
  - repeat split.
  - repeat split.
Qed.

(** C7: in every run, [refetch] is called once for each transfer that
    finishes without error, each [markFileCompleted] is followed at once by
    [refetch] and [refetch] occurs nowhere else; a progress tick and a failed
    transfer call it not at all. *)
Theorem refetch_once_per_completed_file (evs : list Event) (p : Provider) :
  let log := snd (run evs p) in
  count is_refetch log = successes evs p /\
  count is_completion log = successes evs p /\
  refetch_follows_completion log = true /\
  (forall q k n, count is_refetch (snd (step (StoredChunk k n) q)) = 0) /\
  (forall q k err,
     count is_refetch (snd (step (PutSettled k (Threw err)) q)) = 0).
Proof.
  cbv zeta.
  assert (Hrun : count is_refetch (snd (run evs p)) = successes evs p /\
                 count is_completion (snd (run evs p)) = successes evs p /\
                 refetch_follows_completion (snd (run evs p)) = true).
  { revert p. induction evs as [|ev evs IH]; intro p; [repeat split|].
    pose proof (step_refetch ev p) as Hs. cbv zeta in Hs.
    simpl in Hs |- *. rewrite Nat.add_0_r in Hs.
    destruct (step ev p) as [p1 c1]. simpl in Hs |- *.
    specialize (IH p1). destruct (run evs p1) as [p2 c2]. simpl in IH |- *.
    destruct Hs as [R1 [C1 F1]]. destruct IH as [R2 [C2 F2]].
    rewrite !count_app, R1, C1, R2, C2.
    repeat split.
    apply refetch_follows_completion_app with (n := length c1);
      [lia | exact F1 | exact F2]. }
  destruct Hrun as [R [C F]].
  repeat split; try assumption.
  - intros q k n. simpl. destruct (nth_error (inflight q) k); reflexivity.
  - intros q k err. simpl. destruct (nth_error (inflight q) k); reflexivity.
Qed.

(** Scenario of the spec: A fails and B succeeds; one refresh, after B. *)
Lemma refetch_example :
  snd (run [StoredChunk 1 5; PutSettled 0 (Threw "E"%string); PutSettled 0 Stored]
           trackingAB)
  = [UpdateFileProgress entryB 5;
     MarkFileFailed entryA "E"%string; ConsoleError "E"%string;
     MarkFileCompleted entryB; Refetch].
Proof. reflexivity. Qed.

(** ** One entry per identity *)

Lemma idents_filter_NoDup (g : FileProgress -> bool) (l : list FileProgress) :
  NoDup (idents l) -> NoDup (idents (filter g l)).
Proof.
  unfold idents. induction l as [|e l IH]; intro H; simpl; [constructor|].
  simpl in H. apply NoDup_cons_iff in H. destruct H as [Hn H].
  destruct (g e); simpl.
  - constructor; [|apply IH; exact H].
    intro Hin. apply Hn. apply in_map_iff in Hin.
    destruct Hin as [x [Hx Hin]]. apply filter_In in Hin.
    apply in_map_iff. exists x. split; [exact Hx | apply Hin].
  - apply IH. exact H.
Qed.

Lemma effect_keeps_distinct (files : list FileProgress) (p : Provider) :
  NoDup (idents (filesToUpload p)) ->
  NoDup (idents files) ->
  NoDup (idents (filesToUpload (fst (effect files p)))).
Proof.
  intros HT Hf. rewrite effect_tracking. unfold idents. rewrite map_app.
  apply NoDup_app.
  - exact HT.
  - apply idents_filter_NoDup. exact Hf.
  - intros i Hi Hnew. apply in_map_iff in Hnew.
    destruct Hnew as [e [He Hnew]].
    apply new_files_untracked in Hnew. destruct Hnew as [_ Hnew].
    apply Hnew. unfold ident in He |- *. fold (ident e). unfold ident.
    rewrite He. exact Hi.
Qed.

Lemma step_tracking (ev : Event) (p : Provider) :
  filesToUpload (fst (step ev p)) =
  match ev with
  | Render files =>
      filesToUpload p ++ newFilesToUpload files (filesToUpload p)
  | _ => filesToUpload p
  end.
Proof.
  destruct ev; simpl; try reflexivity.
  - unfold uploadFiles_begin. destruct (client p); reflexivity.
  - unfold uploadFiles_resume. destruct (nth_error (awaiting p) k);
      [destruct r|]; reflexivity.
  - apply effect_tracking.
  - destruct (nth_error (inflight p) k); reflexivity.
  - destruct (nth_error (inflight p) k); reflexivity.
Qed.

(** ** One transfer per identity *)

Lemma occurrences_app (f : File) (l1 l2 : list FileProgress) :
  occurrences f (l1 ++ l2) = occurrences f l1 + occurrences f l2.
Proof. unfold occurrences. rewrite filter_app, length_app. reflexivity. Qed.

Lemma puts_of_new (c : Client) (f : File) (new : list FileProgress) :
  count (is_put_of f) (flat_map (start_upload (Some c)) new) = occurrences f new.
Proof.
  unfold count, occurrences. induction new as [|e new IH]; [reflexivity|].
  simpl. destruct (same_file (inputFile e) f); simpl; rewrite IH; reflexivity.
Qed.

Lemma step_client_set (ev : Event) (p : Provider) :
  client p <> None -> client (fst (step ev p)) <> None.
Proof.
  intro H. destruct ev; simpl; try exact H.
  - unfold uploadFiles_begin. destruct (client p); [discriminate | congruence].
  - unfold uploadFiles_resume. destruct (nth_error (awaiting p) k);
      [destruct r|]; simpl; try exact H. discriminate.
  - rewrite effect_client. exact H.
  - destruct (nth_error (inflight p) k); exact H.
  - destruct (nth_error (inflight p) k); exact H.
Qed.

Lemma occurrences_distinct (f : File) (l : list FileProgress) :
  NoDup (idents l) ->
  occurrences f l = if has_file f l then 1 else 0.
Proof.
  unfold occurrences, has_file, idents.
  induction l as [|e l IH]; intro H; [reflexivity|].
  simpl in H. apply NoDup_cons_iff in H. destruct H as [Hn H].
  simpl. destruct (same_file (inputFile e) f) eqn:E; simpl.
  - apply same_file_true in E.
    destruct (existsb _ l) eqn:X.
    + exfalso. apply Hn. apply existsb_exists in X. destruct X as [x [Hx Hs]].
      apply same_file_true in Hs. apply in_map_iff. exists x.
      split; [unfold ident; congruence | exact Hx].
    + rewrite (IH H). reflexivity.
  - apply IH. exact H.
Qed.

(** ** The shared client *)

Lemma start_upload_builds_nothing (c : option Client) (new : list FileProgress) :
  count is_construction (flat_map (start_upload c) new) = 0.
Proof.
  unfold count. induction new as [|e new IH]; [reflexivity|].
  simpl. rewrite filter_app, length_app, IH. destruct c; reflexivity.
Qed.

Lemma step_reuses_client (ev : Event) (p : Provider) (c : Client) :
  client p = Some c -> awaiting p = [] ->
  client (fst (step ev p)) = Some c /\
  awaiting (fst (step ev p)) = [] /\
  count is_construction (snd (step ev p)) = 0.
Proof.
  intros Hc Ha. destruct ev; simpl.
  - unfold uploadFiles_begin. rewrite Hc. simpl. repeat split. exact Ha.
  - unfold uploadFiles_resume. rewrite Ha. destruct k; simpl; repeat split;
      assumption.
  - repeat split; assumption.
  - rewrite effect_client, effect_calls, start_upload_builds_nothing.
    repeat split; [exact Hc|].
    destruct (effect_unfold files p) as [E|[_ E]]; rewrite E; exact Ha.
  - destruct (nth_error (inflight p) k); repeat split; assumption.
  - destruct o; destruct (nth_error (inflight p) k); repeat split; assumption.
  - repeat split; assumption.
  - repeat split; assumption.
Qed.

Lemma run_reuses_client (evs : list Event) (c : Client) :
  forall p,
    client p = Some c -> awaiting p = [] ->
    client (fst (run evs p)) = Some c /\
    count is_construction (snd (run evs p)) = 0.
Proof.
  induction evs as [|ev evs IH]; intros p Hc Ha; simpl; [split; trivial|].
  destruct (step_reuses_client ev p c Hc Ha) as [Hc1 [Ha1 Hn1]].
  destruct (step ev p) as [p1 c1]. simpl in Hc1, Ha1, Hn1.
  destruct (IH p1 Hc1 Ha1) as [Hc2 Hn2].
  destruct (run evs p1) as [p2 c2]. simpl in Hc2, Hn2 |- *.
  rewrite count_app. split; [exact Hc2 | lia].
Qed.

Lemma paced_app (evs1 evs2 : list Event) :
  forall p,
    paced (evs1 ++ evs2) p = paced evs1 p && paced evs2 (fst (run evs1 p)).
Proof.
  induction evs1 as [|ev evs1 IH]; intro p; simpl; [reflexivity|].
  rewrite IH. destruct (step ev p) as [p1 c1]. simpl.
  destruct (run evs1 p1). simpl. apply andb_assoc.
Qed.

Lemma length_le_1_nth {A : Type} (l : list A) (k : nat) (x : A) :
  length l <= 1 -> nth_error l k = Some x -> drop_nth k l = [].
Proof.
  destruct l as [|y [|z l]]; simpl; intros Hl Hk.
  - destruct k; discriminate Hk.
  - destruct k; [reflexivity|]. destruct k; discriminate Hk.
  - lia.
Qed.

Lemma idle_one_at_a_time (p p' : Provider) (calls : list Call) :
  one_at_a_time p ->
  client p' = client p ->
  awaiting p' = awaiting p ->
  count is_construction calls = 0 ->
  one_at_a_time p' /\
  count is_construction calls <=
    match client p with Some _ => 0 | None => 1 end /\
  (client p <> None -> client p' = client p) /\
  (client p = None -> client p' <> None \/ count is_construction calls = 0).
Proof.
  intros [Hl Hs] Hc Ha Hn. unfold one_at_a_time. rewrite Hc, Ha, Hn.
  repeat split; auto. destruct (client p); lia.
Qed.

Lemma step_one_at_a_time (ev : Event) (p : Provider) :
  one_at_a_time p ->
  paced [ev] p = true ->
  one_at_a_time (fst (step ev p)) /\
  count is_construction (snd (step ev p)) <=
    match client p with Some _ => 0 | None => 1 end /\
  (client p <> None -> client (fst (step ev p)) = client p) /\
  (client p = None -> client (fst (step ev p)) <> None \/
                      count is_construction (snd (step ev p)) = 0).
Proof.
  intros Hone Hp.
  destruct ev;
    try (apply idle_one_at_a_time; [exact Hone | reflexivity ..]);
    simpl in Hp |- *.
  - rewrite andb_true_r in Hp. apply Nat.eqb_eq in Hp.
    apply length_zero_iff_nil in Hp.
    unfold uploadFiles_begin.
    generalize (idle_one_at_a_time p
                  (set_client (client p) (constructed p) p)
                  (uploadFiles_initialize snapshot files)
                  Hone eq_refl eq_refl eq_refl).
    destruct (client p) as [c|] eqn:Hc; intro Hidle.
    + exact Hidle.
    + rewrite Hp. unfold one_at_a_time. simpl. rewrite Hc.
      repeat split; auto; intro H; congruence.
  - destruct Hone as [Hl Hs]. unfold uploadFiles_resume.
    destruct (nth_error (awaiting p) k) as [inv|] eqn:Hk.
    + pose proof (length_le_1_nth (awaiting p) k inv Hl Hk) as Hd.
      assert (Hn : client p = None).
      { destruct (client p) eqn:Hc; [|reflexivity].
        rewrite Hs in Hk by discriminate. destruct k; discriminate Hk. }
      unfold one_at_a_time. rewrite Hn.
      destruct r; simpl; rewrite Hd; simpl.
      * repeat split; auto; try congruence. left. discriminate.
      * repeat split; auto; try congruence; try lia.
    + apply idle_one_at_a_time; [split; assumption | reflexivity ..].
  - apply idle_one_at_a_time; [exact Hone | apply effect_client | |].
    + destruct (effect_unfold files p) as [E|[_ E]]; rewrite E; reflexivity.
    + rewrite effect_calls. apply start_upload_builds_nothing.
  - destruct (nth_error (inflight p) k);
      apply idle_one_at_a_time; try exact Hone; reflexivity.
  - destruct o, (nth_error (inflight p) k);
      apply idle_one_at_a_time; try exact Hone; reflexivity.
Qed.

Lemma run_one_at_a_time (evs : list Event) :
  forall p,
    one_at_a_time p ->
    paced evs p = true ->
    one_at_a_time (fst (run evs p)) /\
    count is_construction (snd (run evs p)) <=
      match client p with Some _ => 0 | None => 1 end.
Proof.
  induction evs as [|ev evs IH]; intros p Hone Hp; simpl.
  - split; [exact Hone | unfold count; simpl; destruct (client p); lia].
  - simpl in Hp. apply andb_true_iff in Hp. destruct Hp as [Hp1 Hp2].
    assert (Hp1' : paced [ev] p = true).
    { simpl. rewrite Hp1. reflexivity. }
    destruct (step_one_at_a_time ev p Hone Hp1') as [Hone1 [Hn1 [Hkeep Hnew]]].
    destruct (step ev p) as [p1 c1]. simpl in *.
    destruct (IH p1 Hone1 Hp2) as [Hone2 Hn2].
    destruct (run evs p1) as [p2 c2]. simpl in *.
    split; [exact Hone2|]. rewrite count_app.
    destruct (client p) as [c|] eqn:Hc.
    + rewrite Hkeep in Hn2 by discriminate. lia.
    + destruct (Hnew eq_refl) as [Hset|Hzero].
      * destruct (client p1); [lia | congruence].
      * destruct (client p1); lia.
Qed.

(** C9, as amended: when no call of [uploadFiles] is made while another one
    waits for its token, the client is built at most once in the life of the
    page; from the moment [client] is set, every later event leaves the same
    instance in place and builds nothing; and the first call builds it after
    its token has arrived. *)
Theorem client_built_once_when_paced (evs1 evs2 : list Event) :
  paced (evs1 ++ evs2) initial = true ->
  count is_construction (snd (run (evs1 ++ evs2) initial)) <= 1 /\
  (forall c, client (fst (run evs1 initial)) = Some c ->
             client (fst (run (evs1 ++ evs2) initial)) = Some c /\
             count is_construction (snd (run evs2 (fst (run evs1 initial)))) = 0) /\
  (forall snapshot files token,
     snd (run [CallUploadFiles snapshot files; TokenSettled 0 (TokenOk token)]
              initial)
     = [GetToken; NewWeb3Storage token;
        Initialize (map Entry snapshot ++ map NewFile files)]).
Proof.
  intro Hp.
  assert (Hinit : one_at_a_time initial).
  { split; [simpl; lia | reflexivity]. }
  split; [|split].
  - apply (run_one_at_a_time (evs1 ++ evs2) initial Hinit Hp).
  - intros c Hc. rewrite paced_app in Hp. apply andb_true_iff in Hp.
    destruct Hp as [Hp1 Hp2].
    destruct (run_one_at_a_time evs1 initial Hinit Hp1) as [[_ Hempty] _].
    rewrite run_app. simpl.
    apply run_reuses_client; [exact Hc|].
    apply Hempty. rewrite Hc. discriminate.
  - intros snapshot files token. reflexivity.
Qed.

Lemma client_built_once_when_paced_witness :
  count is_construction
    (snd (run ([CallUploadFiles [] [fileA]; TokenSettled 0 (TokenOk "t1"%string)]
               ++ [CallUploadFiles [entryA] [fileB]; Render [entryA; entryB]])
              initial)) <= 1.
Proof.
  apply (client_built_once_when_paced
           [CallUploadFiles [] [fileA]; TokenSettled 0 (TokenOk "t1"%string)]
           [CallUploadFiles [entryA] [fileB]; Render [entryA; entryB]]).
  reflexivity.
Defined.

(** C9, as stated, fails: two calls of [uploadFiles] made before the first
    token arrives both find [client] unset, and each builds an instance; the
    second replaces the first. *)
Lemma client_built_twice_when_overlapping :
  let evs := [CallUploadFiles [] [fileA]; CallUploadFiles [] [fileB];
              TokenSettled 0 (TokenOk "t1"%string);
              TokenSettled 0 (TokenOk "t2"%string)] in
  count is_construction (snd (run evs initial)) = 2 /\
  client (fst (run (firstn 3 evs) initial)) = Some (mkClient "t1" 0) /\
  client (fst (run evs initial)) = Some (mkClient "t2" 1).
Proof. repeat split. Qed.

(** ** Two files side by side *)

Lemma has_file_witness (f : File) (T : list FileProgress) :
  has_file f T = true <-> exists t, In t T /\ file_ref (inputFile t) = file_ref f.
Proof.
  unfold has_file. rewrite existsb_exists.
  split; intros [t [Ht Hs]]; exists t; split; try exact Ht;
    apply same_file_true; exact Hs.
Qed.

Lemma is_put_of_ref (f g : File) (c : Call) :
  file_ref f = file_ref g -> is_put_of f c = is_put_of g c.
Proof.
  intro H. destruct c; try reflexivity. simpl. unfold same_file.
  rewrite H. reflexivity.
Qed.

Lemma tracked_never_put_again (evs : list Event) (f : File) :
  forall p,
    has_file f (filesToUpload p) = true ->
    count (is_put_of f) (snd (run evs p)) = 0.
Proof.
  induction evs as [|ev evs IH]; intros p Hf; simpl; [reflexivity|].
  assert (Hstep : count (is_put_of f) (snd (step ev p)) = 0 /\
                  has_file f (filesToUpload (fst (step ev p))) = true).
  { rewrite step_tracking. destruct ev; simpl; try (split; [reflexivity|exact Hf]).
    - unfold uploadFiles_begin. destruct (client p); split; trivial.
    - unfold uploadFiles_resume. destruct (nth_error (awaiting p) k);
        [destruct r|]; split; trivial.
    - split.
      + rewrite effect_calls.
        apply has_file_witness in Hf. destruct Hf as [t [Ht Hr]].
        unfold count.
        rewrite (filter_ext _ _ (fun c => is_put_of_ref f (inputFile t) c
                                            (eq_sym Hr))).
        apply start_upload_of_new_is_not_tracked with (T := filesToUpload p).
        * exact Ht.
        * intros e He. apply new_files_untracked in He. apply He.
      + unfold has_file in Hf |- *. rewrite existsb_app, Hf. reflexivity.
    - destruct (nth_error (inflight p) k); split; trivial.
    - destruct o, (nth_error (inflight p) k); split; trivial. }
  destruct Hstep as [Hc Hf1].
  destruct (step ev p) as [p1 c1]. simpl in Hc, Hf1.
  specialize (IH p1 Hf1). destruct (run evs p1) as [p2 c2]. simpl in IH |- *.
  rewrite count_app. lia.
Qed.



(** ** The hook keeps identities apart *)

Lemma present_idents (acc : list FileProgress) (f : File) :
  ProgressHook.present acc f = false <-> ~ In (file_ref f) (idents acc).
Proof.
  unfold ProgressHook.present, idents.
  rewrite <- not_true_iff_false, existsb_exists. split; intros H Hin; apply H.
  - apply in_map_iff in Hin. destruct Hin as [e [Hid Hin]].
    exists e. split; [exact Hin | apply same_file_true; exact Hid].
  - destruct Hin as [e [Hin Hs]]. apply in_map_iff. exists e.
    split; [apply same_file_true; exact Hs | exact Hin].
Qed.

Lemma initialize_onto_new (fs : list File) :
  forall acc,
    exists fresh,
      ProgressHook.initialize_onto acc (map NewFile fs) = acc ++ fresh /\
      (forall x, In x fresh -> status x = PENDING) /\
      (NoDup (idents acc) -> NoDup (idents (acc ++ fresh))).
Proof.
  induction fs as [|f fs IH]; intro acc; simpl.
  - exists []. rewrite app_nil_r. repeat split; [intros x []| trivial].
  - destruct (ProgressHook.present acc f) eqn:P.
    + apply IH.
    + destruct (IH (acc ++ [ProgressHook.pendingEntry f]))
        as [fresh [E [Hp Hd]]].
      exists (ProgressHook.pendingEntry f :: fresh).
      rewrite E, <- app_assoc. simpl. repeat split.
      * intros x [Hx|Hx]; [subst x; reflexivity | apply Hp; exact Hx].
      * intro Hacc.
        replace (acc ++ ProgressHook.pendingEntry f :: fresh)
          with ((acc ++ [ProgressHook.pendingEntry f]) ++ fresh)
          by (rewrite <- app_assoc; reflexivity).
        apply Hd. unfold idents. rewrite map_app. simpl.
        apply NoDup_app; [exact Hacc | repeat constructor; intros [] |].
        intros i Hi [Hf|[]]. apply present_idents in P. apply P.
        unfold ident in Hf. simpl in Hf. rewrite Hf. exact Hi.
Qed.

Lemma initialize_appends (files : list FileProgress) (fs : list File) :
  exists fresh,
    ProgressHook.initialize (map Entry files ++ map NewFile fs) = files ++ fresh /\
    (forall x, In x fresh -> status x = PENDING) /\
    (NoDup (idents files) -> NoDup (idents (files ++ fresh))).
Proof.
  unfold ProgressHook.initialize. rewrite initialize_onto_entries. simpl.
  apply initialize_onto_new.
Qed.

Lemma on_identity_In file g files e' :
  In e' (ProgressHook.on_identity file g files) ->
  exists e, In e files /\
            (e' = e \/ (e' = g e /\ ident e = ident file)).
Proof.
  unfold ProgressHook.on_identity. intro H. apply in_map_iff in H.
  destruct H as [e [He Hin]]. exists e. split; [exact Hin|].
  destruct (same_file (inputFile e) (inputFile file)) eqn:S.
  - right. split; [symmetry; exact He | apply same_file_true; exact S].
  - left. symmetry. exact He.
Qed.

Lemma on_identity_idents file g files :
  (forall e, ident (g e) = ident e) ->
  idents (ProgressHook.on_identity file g files) = idents files.
Proof.
  intro Hg. unfold ProgressHook.on_identity, idents. rewrite map_map.
  apply map_ext. intro e.
  destruct (same_file (inputFile e) (inputFile file)); [apply Hg | reflexivity].
Qed.

Lemma on_identity_keeps file g files e :
  In e files -> ident e <> ident file ->
  In e (ProgressHook.on_identity file g files).
Proof.
  intros Hin Hne. unfold ProgressHook.on_identity. apply in_map_iff.
  exists e. split; [|exact Hin].
  destruct (same_file (inputFile e) (inputFile file)) eqn:S; [|reflexivity].
  apply same_file_true in S. exfalso. apply Hne. exact S.
Qed.

(** ** Lists of handlers *)

Lemma drop_nth_In {A : Type} (l : list A) :
  forall k x, In x (drop_nth k l) -> In x l.
Proof.
  induction l as [|y l IH]; intros k x H; [destruct k; exact H|].
  destruct k; simpl in H.
  - right. exact H.
  - destruct H as [H|H]; [left; exact H | right; exact (IH k x H)].
Qed.

Lemma drop_nth_map {A B : Type} (g : A -> B) (l : list A) :
  forall k, map g (drop_nth k l) = drop_nth k (map g l).
Proof.
  induction l as [|y l IH]; intro k; [destruct k; reflexivity|].
  destruct k; simpl; [reflexivity | rewrite IH; reflexivity].
Qed.

Lemma drop_nth_NoDup {A : Type} (l : list A) :
  forall k, NoDup l -> NoDup (drop_nth k l).
Proof.
  induction l as [|y l IH]; intros k H; [destruct k; exact H|].
  apply NoDup_cons_iff in H. destruct H as [Hn H].
  destruct k; simpl; [exact H|].
  constructor; [|apply IH; exact H].
  intro Hin. apply Hn. exact (drop_nth_In l k y Hin).
Qed.

Lemma drop_nth_gone {A : Type} (l : list A) :
  forall k x, NoDup l -> nth_error l k = Some x -> ~ In x (drop_nth k l).
Proof.
  induction l as [|y l IH]; intros k x H Hk; [destruct k; discriminate Hk|].
  apply NoDup_cons_iff in H. destruct H as [Hn H].
  destruct k; simpl in Hk |- *.
  - inversion Hk. subst y. exact Hn.
  - intros [Hy|Hin].
    + subst y. apply Hn. exact (nth_error_In l k Hk).
    + exact (IH k x H Hk Hin).
Qed.

Lemma handler_ident (l : list FileProgress) (k : nat) (file : FileProgress) :
  nth_error l k = Some file -> nth_error (idents l) k = Some (ident file).
Proof.
  intro H. unfold idents. rewrite nth_error_map, H. reflexivity.
Qed.

(** ** What holds between two actions *)

Lemma mark_consistent (p p' : Provider) (files : list FileProgress)
    (file : FileProgress) (g : FileProgress -> FileProgress) :
  consistent p files ->
  In (ident file) (idents (inflight p)) ->
  (forall e, ident (g e) = ident e) ->
  client p' = client p ->
  awaiting p' = awaiting p ->
  filesToUpload p' = filesToUpload p ->
  NoDup (idents (inflight p')) ->
  (forall i, In i (idents (inflight p')) -> In i (idents (inflight p))) ->
  (forall e, In e files -> ident e = ident file ->
             terminal (status e) = false ->
             terminal (status (g e)) = true ->
             ~ In (ident file) (idents (inflight p'))) ->
  consistent p' (ProgressHook.on_identity file g files) /\
  (forall e, In e files -> terminal (status e) = true ->
             In e (ProgressHook.on_identity file g files)).
Proof.
  intros [D1 D2 HT ST SI NC WA WE] Hfile Hg Hc Ha Hf Hd Hsub Hterm.
  assert (Hidle : forall e, In e files -> ident e = ident file ->
                            terminal (status e) = false).
  { intros e Hin Hid. apply not_true_iff_false. intro Ht.
    apply (SI e Hin Ht). rewrite Hid. exact Hfile. }
  split.
  - constructor.
    + rewrite on_identity_idents; assumption.
    + exact Hd.
    + intros i Hi. rewrite Hf. apply HT. apply Hsub. exact Hi.
    + intros e' Hin Hs. rewrite Hf.
      apply on_identity_In in Hin. destruct Hin as [e [Hin [Heq|[Heq Hid]]]].
      * subst e'. apply ST; assumption.
      * subst e'. rewrite Hg, Hid. apply HT. exact Hfile.
    + intros e' Hin Ht.
      apply on_identity_In in Hin. destruct Hin as [e [Hin [Heq|[Heq Hid]]]].
      * subst e'. intro Hi. apply (SI e Hin Ht). apply Hsub. exact Hi.
      * subst e'. rewrite Hg, Hid.
        apply (Hterm e Hin Hid (Hidle e Hin Hid) Ht).
    + intro Hn. rewrite Hc in Hn. destruct (NC Hn) as [_ Hi].
      rewrite Hi in Hfile. destruct Hfile.
    + destruct WA as [Hl Hs]. split; rewrite ?Ha, ?Hc; assumption.
    + rewrite Ha. exact WE.
  - intros e Hin Ht. apply on_identity_keeps; [exact Hin|].
    intro Hid. rewrite (Hidle e Hin Hid) in Ht. discriminate Ht.
Qed.

Lemma chunk_consistent (p : Provider) (files : list FileProgress)
    (k : nat) (n : Z) :
  consistent p files ->
  consistent (fst (step (StoredChunk k n) p))
             (ProgressHook.run (snd (step (StoredChunk k n) p)) files) /\
  (forall e, In e files -> terminal (status e) = true ->
             In e (ProgressHook.run (snd (step (StoredChunk k n) p)) files)).
Proof.
  intro C. simpl.
  destruct (nth_error (inflight p) k) as [file|] eqn:Hk; simpl.
  - apply mark_consistent with (p := p); try reflexivity; try exact C.
    + apply nth_error_In with (n := k). apply handler_ident. exact Hk.
    + intro e. destruct (status_eqb (status e) UPLOADING); reflexivity.
    + apply (distinct_handlers p files C).
    + trivial.
    + intros e _ _ Hf Ht.
      destruct (status_eqb (status e) UPLOADING);
        [cbv in Ht; discriminate Ht | congruence].
  - split; [exact C | trivial].
Qed.

Lemma settle_consistent (p : Provider) (files : list FileProgress)
    (k : nat) (o : PutOutcome) :
  consistent p files ->
  consistent (fst (step (PutSettled k o) p))
             (ProgressHook.run (snd (step (PutSettled k o) p)) files) /\
  (forall e, In e files -> terminal (status e) = true ->
             In e (ProgressHook.run (snd (step (PutSettled k o) p)) files)).
Proof.
  intro C. simpl.
  destruct (nth_error (inflight p) k) as [file|] eqn:Hk; simpl.
  - assert (Hgone : ~ In (ident file) (idents (drop_nth k (inflight p)))).
    { unfold idents. rewrite drop_nth_map. apply drop_nth_gone.
      - apply (distinct_handlers p files C).
      - apply handler_ident. exact Hk. }
    assert (Hd : NoDup (idents (drop_nth k (inflight p)))).
    { unfold idents. rewrite drop_nth_map. apply drop_nth_NoDup.
      apply (distinct_handlers p files C). }
    assert (Hsub : forall i, In i (idents (drop_nth k (inflight p))) ->
                             In i (idents (inflight p))).
    { intros i Hi. unfold idents in Hi |- *. rewrite drop_nth_map in Hi.
      exact (drop_nth_In _ k i Hi). }
    assert (Hfile : In (ident file) (idents (inflight p))).
    { apply nth_error_In with (n := k). apply handler_ident. exact Hk. }
    destruct o; simpl.
    + apply mark_consistent with (p := p); try reflexivity; try assumption.
      * intro e. destruct (terminal (status e)); reflexivity.
      * intros; assumption.
    + apply mark_consistent with (p := p); try reflexivity; try assumption.
      intros; assumption.
  - split; [exact C | trivial].
Qed.

Lemma clear_consistent (p : Provider) (files : list FileProgress) :
  consistent p files ->
  ProgressHook.run (snd (step (CallClearUploadedFiles files) p)) files
    = filter not_completed files /\
  consistent (fst (step (CallClearUploadedFiles files) p))
             (filter not_completed files).
Proof.
  intros [D1 D2 HT ST SI NC WA WE]. cbn -[filter].
  rewrite initialize_entries. split; [reflexivity|].
  constructor; try assumption.
  - apply idents_filter_NoDup. exact D1.
  - intros e He. apply filter_In in He. apply ST. apply He.
  - intros e He. apply filter_In in He. apply SI. apply He.
  - intro Hn. destruct (NC Hn) as [Hf Hi]. rewrite Hf. split; [reflexivity|exact Hi].
Qed.

Lemma pending_not_terminal (e : FileProgress) :
  status e = PENDING -> terminal (status e) = false.
Proof. intro H. rewrite H. reflexivity. Qed.

Lemma upload_consistent (p : Provider) (files : list FileProgress)
    (fs : list File) :
  consistent p files ->
  awaiting p = [] ->
  consistent (fst (step (CallUploadFiles files fs) p))
             (ProgressHook.run (snd (step (CallUploadFiles files fs) p)) files) /\
  (forall e, In e files ->
             In e (ProgressHook.run (snd (step (CallUploadFiles files fs) p))
                                    files)).
Proof.
  intros [D1 D2 HT ST SI NC WA WE] Ha. simpl. unfold uploadFiles_begin.
  destruct (client p) as [c|] eqn:Hc; simpl.
  - destruct (initialize_appends files fs) as [fresh [E [Hp Hd]]].
    rewrite E. split; [|intros e He; apply in_or_app; left; exact He].
    constructor; simpl; try assumption.
    + apply Hd. exact D1.
    + intros e He Hs. apply in_app_or in He. destruct He as [He|He].
      * apply ST; assumption.
      * exfalso. apply Hs. apply Hp. exact He.
    + intros e He Ht. apply in_app_or in He. destruct He as [He|He].
      * apply SI; assumption.
      * rewrite (pending_not_terminal e (Hp e He)) in Ht. discriminate Ht.
    + intro H. discriminate H.
    + destruct WA as [Hl Hs]. split; simpl; [exact Hl|].
      intros _. exact Ha.
  - split; [|trivial]. destruct (NC eq_refl) as [Hf Hi].
    constructor; simpl; try assumption.
    + intros _. split; assumption.
    + rewrite Ha. split; simpl; [lia|]. rewrite Hc. intro H. congruence.
    + rewrite Ha. intros inv [H|[]]. subst inv. exact Hf.
Qed.

Lemma token_consistent (p : Provider) (files : list FileProgress)
    (k : nat) (r : TokenResult) :
  consistent p files ->
  consistent (fst (step (TokenSettled k r) p))
             (ProgressHook.run (snd (step (TokenSettled k r) p)) files) /\
  (forall e, In e files ->
             In e (ProgressHook.run (snd (step (TokenSettled k r) p)) files)).
Proof.
  intros C. pose proof C as [D1 D2 HT ST SI NC WA WE].
  simpl. unfold uploadFiles_resume.
  destruct (nth_error (awaiting p) k) as [inv|] eqn:Hk; simpl;
    [|split; [exact C | trivial]].
  destruct WA as [Hl Hs].
  assert (Hn : client p = None).
  { destruct (client p) eqn:Hc; [|reflexivity].
    rewrite Hs in Hk by discriminate. destruct k; discriminate Hk. }
  destruct (NC Hn) as [Hf Hi].
  pose proof (length_le_1_nth (awaiting p) k inv Hl Hk) as Hd.
  pose proof (WE inv (nth_error_In _ _ Hk)) as Hsnap.
  rewrite Hf. split; [|intros e []].
  destruct r; simpl; rewrite Hd.
  - rewrite Hsnap.
    destruct (initialize_appends [] (inv_files inv)) as [fresh [E [Hp Hfresh]]].
    rewrite E. simpl in Hfresh |- *.
    constructor; simpl; rewrite ?Hi; simpl.
    + apply Hfresh. constructor.
    + constructor.
    + intros i [].
    + intros e He Hst. exfalso. apply Hst. apply Hp. exact He.
    + intros e _ _ [].
    + intro H. discriminate H.
    + split; simpl; [lia | trivial].
    + intros i [].
  - constructor; simpl; rewrite ?Hi; simpl.
    + constructor.
    + constructor.
    + intros i [].
    + intros e [].
    + intros e [].
    + intros _. split; reflexivity.
    + split; simpl; [lia | trivial].
    + intros i [].
Qed.

Lemma effect_consistent (p : Provider) (files : list FileProgress) :
  consistent p files ->
  ProgressHook.run (snd (effect files p)) files = files /\
  consistent (fst (effect files p)) files.
Proof.
  intros C. pose proof C as [D1 D2 HT ST SI NC WA WE].
  destruct (effect_unfold files p) as [E|[N E]];
    [|rewrite E; split; [reflexivity | exact C]].
  destruct (client p) as [c|] eqn:Hc.
  - rewrite E. simpl. split; [apply puts_change_nothing|].
    set (new := newFilesToUpload files (filesToUpload p)).
    assert (Hnew : forall i, In i (idents new) ->
                             ~ In i (idents (filesToUpload p))).
    { intros i Hi. unfold idents in Hi. apply in_map_iff in Hi.
      destruct Hi as [e [He Hin]]. apply new_files_untracked in Hin.
      rewrite <- He. apply Hin. }
    constructor; simpl.
    + exact D1.
    + unfold idents. rewrite map_app. apply NoDup_app.
      * exact D2.
      * apply idents_filter_NoDup. exact D1.
      * intros i Hi Hn. apply (Hnew i Hn). apply HT. exact Hi.
    + intros i Hi. unfold idents in Hi |- *. rewrite map_app in Hi |- *.
      apply in_app_or in Hi. apply in_or_app.
      destruct Hi as [Hi|Hi]; [left; apply HT; exact Hi | right; exact Hi].
    + intros e He Hs. unfold idents. rewrite map_app. apply in_or_app.
      left. apply ST; assumption.
    + intros e He Ht Hi. unfold idents in Hi. rewrite map_app in Hi.
      apply in_app_or in Hi. destruct Hi as [Hi|Hi].
      * exact (SI e He Ht Hi).
      * apply (Hnew (ident e) Hi). apply ST; [exact He|].
        intro Hp. rewrite (pending_not_terminal e Hp) in Ht. discriminate Ht.
    + rewrite Hc. intro H. discriminate H.
    + exact WA.
    + exact WE.
  - destruct (NC eq_refl) as [Hf Hi]. rewrite Hf. simpl.
    split; [reflexivity|]. rewrite <- Hf. exact C.
Qed.

Lemma act_unfold (a : Action) (s : App) :
  let ev := react a (progress_files s) in
  let p1 := fst (step ev (provider s)) in
  let files1 := ProgressHook.run (snd (step ev (provider s))) (progress_files s) in
  fst (act a s) =
  mkApp (fst (effect files1 p1)) (ProgressHook.run (snd (effect files1 p1)) files1).
Proof.
  cbv zeta. unfold act.
  destruct (step (react a (progress_files s)) (provider s)) as [p1 c1]. simpl.
  destruct (effect (ProgressHook.run c1 (progress_files s)) p1) as [p2 c2].
  reflexivity.
Qed.

Lemma settled_after_effect (p1 : Provider) (files files1 : list FileProgress) :
  consistent p1 files1 ->
  (forall e, In e files -> terminal (status e) = true -> In e files1) ->
  consistent (fst (effect files1 p1))
             (ProgressHook.run (snd (effect files1 p1)) files1) /\
  (forall e, In e files -> terminal (status e) = true ->
             In e (ProgressHook.run (snd (effect files1 p1)) files1)).
Proof.
  intros C H. destruct (effect_consistent p1 files1 C) as [E C'].
  rewrite E. split; assumption.
Qed.

Lemma act_consistent (a : Action) (s : App) :
  consistent (provider s) (progress_files s) ->
  paced_acts [a] s = true ->
  let s' := fst (act a s) in
  consistent (provider s') (progress_files s') /\
  (forall e, In e (progress_files s) -> terminal (status e) = true ->
     (a = ClearUploadedFiles /\ status e = COMPLETED ->
      ~ In e (progress_files s')) /\
     (~ (a = ClearUploadedFiles /\ status e = COMPLETED) ->
      In e (progress_files s'))).
Proof.
  intros C Hp. cbv zeta. rewrite act_unfold. cbv zeta. cbn [provider progress_files].
  destruct s as [p files]. cbn [provider progress_files] in *.
  destruct a; cbn [react].
  - simpl in Hp. rewrite andb_true_r in Hp. apply Nat.eqb_eq in Hp.
    apply length_zero_iff_nil in Hp.
    destruct (upload_consistent p files files0 C Hp) as [C1 K1].
    destruct (settled_after_effect _ files _ C1 (fun e He _ => K1 e He))
      as [C2 K2].
    split; [exact C2|]. intros e He Ht. split.
    + intros [H _]. discriminate H.
    + intros _. apply K2; assumption.
  - destruct (token_consistent p files k r C) as [C1 K1].
    destruct (settled_after_effect _ files _ C1 (fun e He _ => K1 e He))
      as [C2 K2].
    split; [exact C2|]. intros e He Ht. split.
    + intros [H _]. discriminate H.
    + intros _. apply K2; assumption.
  - destruct (clear_consistent p files C) as [E C1]. rewrite E.
    destruct (effect_consistent _ _ C1) as [E2 C2]. rewrite E2.
    split; [exact C2|]. intros e He Ht. split.
    + intros [_ Hs] Hin. apply filter_In in Hin. destruct Hin as [_ Hin].
      apply not_completed_iff in Hin. apply Hin. exact Hs.
    + intros Hn. apply filter_In. split; [exact He|].
      apply not_completed_iff. intro Hs. apply Hn. split; [reflexivity|exact Hs].
  - destruct (chunk_consistent p files k n C) as [C1 K1].
    destruct (settled_after_effect _ files _ C1 K1) as [C2 K2].
    split; [exact C2|]. intros e He Ht. split.
    + intros [H _]. discriminate H.
    + intros _. apply K2; assumption.
  - destruct (settle_consistent p files k o C) as [C1 K1].
    destruct (settled_after_effect _ files _ C1 K1) as [C2 K2].
    split; [exact C2|]. intros e He Ht. split.
    + intros [H _]. discriminate H.
    + intros _. apply K2; assumption.
Qed.

Lemma mounted_consistent : consistent (provider mounted) (progress_files mounted).
Proof.
  constructor; simpl; try constructor; try (intros ? []); try (simpl; lia);
    try reflexivity; trivial.
Qed.

Lemma paced_acts_app (l1 l2 : list Action) :
  forall s,
    paced_acts (l1 ++ l2) s =
    paced_acts l1 s && paced_acts l2 (fst (acts l1 s)).
Proof.
  induction l1 as [|a l1 IH]; intro s; simpl; [reflexivity|].
  rewrite IH. destruct (act a s) as [s1 c1]. simpl.
  destruct (acts l1 s1). simpl. apply andb_assoc.
Qed.

Lemma acts_consistent (l : list Action) :
  forall s,
    consistent (provider s) (progress_files s) ->
    paced_acts l s = true ->
    consistent (provider (fst (acts l s))) (progress_files (fst (acts l s))).
Proof.
  induction l as [|a l IH]; intros s C Hp; simpl; [exact C|].
  simpl in Hp. apply andb_true_iff in Hp. destruct Hp as [Hp1 Hp2].
  assert (Hp1' : paced_acts [a] s = true).
  { simpl. rewrite Hp1. reflexivity. }
  destruct (act_consistent a s C Hp1') as [C1 _].
  destruct (act a s) as [s1 c1]. simpl in *.
  specialize (IH s1 C1 Hp2). destruct (acts l s1) as [s2 c2]. exact IH.
Qed.

(** C8, as amended: as long as no call of [uploadFiles] is made while
    another one waits for its token, an entry that is [completed] or [failed]
    is still in [progress.files], with the same status, byte count and error,
    after any action of the page or answer of the network, except that
    [clearUploadedFiles] removes it when it is [completed]; a [failed] entry
    is never removed. *)
Theorem terminal_entries_stay (l : list Action) (a : Action) (e : FileProgress) :
  paced_acts (l ++ [a]) mounted = true ->
  In e (progress_files (fst (acts l mounted))) ->
  terminal (status e) = true ->
  let after := progress_files (fst (act a (fst (acts l mounted)))) in
  (a = ClearUploadedFiles /\ status e = COMPLETED -> ~ In e after) /\
  (~ (a = ClearUploadedFiles /\ status e = COMPLETED) -> In e after).
Proof.
  intros Hp He Ht. rewrite paced_acts_app in Hp.
  apply andb_true_iff in Hp. destruct Hp as [Hp1 Hp2].
  pose proof (acts_consistent l mounted mounted_consistent Hp1) as C.
  destruct (act_consistent a (fst (acts l mounted)) C Hp2) as [_ K].
  exact (K e He Ht).
Qed.

Lemma terminal_entries_stay_witness :
  In entryA_failed
     (progress_files
        (fst (act (UploadFiles [fileB])
                  (fst (acts [UploadFiles [fileA]; Token 0 (TokenOk "t1"%string);
                              Settle 0 (Threw "E"%string); ClearUploadedFiles]
                             mounted))))).
Proof.
  apply (terminal_entries_stay
           [UploadFiles [fileA]; Token 0 (TokenOk "t1"%string);
            Settle 0 (Threw "E"%string); ClearUploadedFiles]
           (UploadFiles [fileB]) entryA_failed).
  - reflexivity.
  - left. reflexivity.
  - reflexivity.
  - intros [H _]. discriminate H.
Defined.

(** C8, as stated, fails: two calls of [uploadFiles] are made before the
    first token arrives; the transfer of the first file fails; when the second
    call resumes it hands [initialize] the list it saw when it was made, and
    the failed entry is gone, without any [clearUploadedFiles]. *)
Lemma failed_entry_dropped_when_overlapping :
  let before := fst (acts [UploadFiles [fileA]; UploadFiles [fileB];
                           Token 0 (TokenOk "t1"%string);
                           Settle 0 (Threw "E"%string)] mounted) in
  let after := fst (act (Token 0 (TokenOk "t2"%string)) before) in
  progress_files before = [entryA_failed] /\
  terminal (status entryA_failed) = true /\
  progress_files after = [entryB] /\
  ~ In entryA_failed (progress_files after).
Proof.
  cbv zeta. repeat split.
  intros [H|[]]. discriminate H.
Qed.

(** * Further properties of the provider *)

(** ** Rendering again *)

Lemma effect_repeated (files : list FileProgress) (p : Provider) (n : nat) :
  run (repeat (Render files) n) (fst (effect files p)) =
  (fst (effect files p), []).
Proof.
  induction n as [|n IH]; simpl; [reflexivity|].
  rewrite effect_settles, IH. reflexivity.
Qed.

(** X1: rendering the same [progress.files] again, any number of times,
    starts nothing more and changes nothing: the state and the calls are
    those of the first run of the effect. *)
Theorem effect_runs_once (files : list FileProgress) (n : nat) (p : Provider) :
  run (repeat (Render files) (S n)) p = run [Render files] p.
Proof.
  simpl. destruct (effect files p) as [p1 c1] eqn:E.
  replace p1 with (fst (effect files p)) by (rewrite E; reflexivity).
  rewrite effect_repeated. reflexivity.
Qed.

(** ** What stays tracked *)

Lemma run_tracking_grows (evs : list Event) :
  forall p,
    exists more,
      filesToUpload (fst (run evs p)) = filesToUpload p ++ more /\
      (forall e, In e more ->
                 exists files, In (Render files) evs /\ In e files).
Proof.
  induction evs as [|ev evs IH]; intro p; simpl.
  - exists []. rewrite app_nil_r. split; [reflexivity|].
    intros e He. destruct He.
  - pose proof (step_tracking ev p) as Hs.
    destruct (step ev p) as [p1 c1]. simpl in Hs.
    destruct (IH p1) as [more [Hm Hfrom]].
    destruct (run evs p1) as [p2 c2]. simpl in Hm |- *.
    destruct ev; rewrite Hs in Hm;
      try (exists more; split; [exact Hm|];
           intros e He; destruct (Hfrom e He) as [fs [Hin Hf]];
           exists fs; split; [right; exact Hin | exact Hf]).
    exists (newFilesToUpload files (filesToUpload p) ++ more).
    rewrite app_assoc. split; [exact Hm|].
    intros e He. apply in_app_or in He. destruct He as [He|He].
    + exists files. split; [left; reflexivity|].
      apply new_files_untracked in He. apply He.
    + destruct (Hfrom e He) as [fs [Hin Hf]].
      exists fs. split; [right; exact Hin | exact Hf].
Qed.

(** X2: whatever happens, [filesToUpload] only grows at its end: the entries
    it held stay where they were, [clearUploadedFiles] included; every entry
    added comes from a list handed to the effect; and a file that is tracked
    stays tracked. *)
Theorem tracking_only_grows (evs : list Event) (p : Provider) :
  (exists more,
     filesToUpload (fst (run evs p)) = filesToUpload p ++ more /\
     (forall e, In e more ->
                exists files, In (Render files) evs /\ In e files)) /\
  (forall f, has_file f (filesToUpload p) = true ->
             has_file f (filesToUpload (fst (run evs p))) = true).
Proof.
  destruct (run_tracking_grows evs p) as [more [Hm Hfrom]].
  split.
  - exists more. split; assumption.
  - intros f Hf. rewrite Hm. unfold has_file in Hf |- *.
    rewrite existsb_app, Hf. reflexivity.
Qed.

Lemma effect_handlers (files : list FileProgress) (p : Provider) :
  inflight (fst (effect files p)) =
  inflight p ++ match client p with
                | Some _ => newFilesToUpload files (filesToUpload p)
                | None => []
                end.
Proof.
  destruct (effect_unfold files p) as [E|[N E]]; rewrite E; simpl.
  - reflexivity.
  - rewrite N. destruct (client p); rewrite app_nil_r; reflexivity.
Qed.

Lemma step_reports_tracked (ev : Event) (p : Provider) :
  incl (inflight p) (filesToUpload p) ->
  incl (inflight (fst (step ev p))) (filesToUpload (fst (step ev p))) /\
  (forall c file, In c (snd (step ev p)) -> reported c = Some file ->
                  In file (filesToUpload (fst (step ev p)))).
Proof.
  intro H. destruct ev; simpl.
  - unfold uploadFiles_begin. destruct (client p) as [cl|]; simpl; split;
      try exact H; intros c file [Hc|[]]; subst c; discriminate.
  - unfold uploadFiles_resume.
    destruct (nth_error (awaiting p) k); [destruct r|]; simpl;
      split; try exact H; intros c file Hc; simpl in Hc;
      repeat (destruct Hc as [Hc|Hc]; [subst c; discriminate|]);
      destruct Hc.
  - split; [exact H|]. intros c file [Hc|[]]; subst c; discriminate.
  - rewrite effect_handlers, effect_tracking, effect_calls. split.
    + intros x Hx. apply in_app_or in Hx. apply in_or_app.
      destruct Hx as [Hx|Hx]; [left; apply H; exact Hx|].
      destruct (client p) as [cl|]; [right; exact Hx | destruct Hx].
    + intros c file Hc Hr. apply in_flat_map in Hc.
      destruct Hc as [e [He Hc]]. apply in_or_app. right.
      destruct (client p) as [cl|]; simpl in Hc.
      * destruct Hc as [Hc|[]]; subst c; discriminate.
      * destruct Hc as [Hc|[Hc|[]]]; subst c; [|discriminate].
        simpl in Hr. inversion Hr. subst file. exact He.
  - destruct (nth_error (inflight p) k) as [file0|] eqn:Hk; simpl;
      split; try exact H; intros c file Hc; [|destruct Hc].
    destruct Hc as [Hc|[]]. intro Hr. subst c. simpl in Hr. inversion Hr.
    subst file. apply H. exact (nth_error_In _ _ Hk).
  - destruct (nth_error (inflight p) k) as [file0|] eqn:Hk; simpl;
      [|split; [exact H | intros c file Hc; destruct Hc]].
    split.
    + intros x Hx. apply H. exact (drop_nth_In _ k x Hx).
    + assert (Hin : In file0 (filesToUpload p)).
      { apply H. exact (nth_error_In _ _ Hk). }
      destruct o; simpl; intros c file [Hc|[Hc|[]]] Hr; subst c;
        try discriminate; simpl in Hr; inversion Hr; subst file; exact Hin.
  - split; [exact H|]. intros c file [Hc|[]]; subst c; discriminate.
  - split; [exact H|]. intros c file Hc. destruct Hc.
Qed.

(** X3: as long as every waiting handler is for a tracked entry, it stays
    so, and every [updateFileProgress], [markFileCompleted] and
    [markFileFailed] the provider ever issues is about an entry that is in
    [filesToUpload] at the end of the run. *)
Theorem reports_only_for_tracked (evs : list Event) (p : Provider) :
  incl (inflight p) (filesToUpload p) ->
  incl (inflight (fst (run evs p))) (filesToUpload (fst (run evs p))) /\
  (forall c file, In c (snd (run evs p)) -> reported c = Some file ->
                  In file (filesToUpload (fst (run evs p)))).
Proof.
  revert p. induction evs as [|ev evs IH]; intros p H; simpl.
  - split; [exact H | intros c file Hc; destruct Hc].
  - destruct (step_reports_tracked ev p H) as [H1 R1].
    destruct (run_tracking_grows evs (fst (step ev p))) as [more [Hm _]].
    destruct (step ev p) as [p1 c1]. simpl in H1, R1, Hm.
    destruct (IH p1 H1) as [H2 R2].
    destruct (run evs p1) as [p2 c2]. simpl in H2, R2, Hm |- *.
    split; [exact H2|].
    intros c file Hc Hr. apply in_app_or in Hc. destruct Hc as [Hc|Hc].
    + rewrite Hm. apply in_or_app. left. exact (R1 c file Hc Hr).
    + exact (R2 c file Hc Hr).
Qed.

Lemma reports_only_for_tracked_witness :
  let evs := [Render [entryA; entryB]; StoredChunk 0 5;
              PutSettled 0 (Threw "E"%string); PutSettled 0 Stored] in
  incl (inflight ready) (filesToUpload ready) /\
  In (MarkFileFailed entryA "E"%string) (snd (run evs ready)) /\
  In entryA (filesToUpload (fst (run evs ready))).
Proof.
  cbv zeta. split; [intros x Hx; destruct Hx|].
  split; [do 3 right; left; reflexivity|].
  apply (proj2 (reports_only_for_tracked
                  [Render [entryA; entryB]; StoredChunk 0 5;
                   PutSettled 0 (Threw "E"%string); PutSettled 0 Stored]
                  ready (fun x Hx => match Hx with end))
               (MarkFileFailed entryA "E"%string) entryA).
  - do 3 right. left. reflexivity.
  - reflexivity.
Defined.

(** ** Transfers started and transfers ended *)

Lemma drop_nth_length {A : Type} (l : list A) :
  forall k x, nth_error l k = Some x -> S (length (drop_nth k l)) = length l.
Proof.
  induction l as [|y l IH]; intros k x H; [destruct k; discriminate H|].
  destruct k; simpl in H |- *; [reflexivity|].
  rewrite (IH k x H). reflexivity.
Qed.

Lemma puts_of_started (c : Client) (new : list FileProgress) :
  count is_put (flat_map (start_upload (Some c)) new) = length new /\
  count is_verdict (flat_map (start_upload (Some c)) new) = 0.
Proof.
  unfold count. induction new as [|e new [IH1 IH2]]; [split; reflexivity|].
  simpl. rewrite IH1, IH2. split; reflexivity.
Qed.

Lemma step_balance (ev : Event) (p : Provider) :
  client p <> None ->
  count is_put (snd (step ev p)) + length (inflight p) =
  length (inflight (fst (step ev p))) + count is_verdict (snd (step ev p)).
Proof.
  intro Hc. destruct ev; simpl.
  - unfold uploadFiles_begin.
    destruct (client p); [unfold count; simpl; lia | congruence].
  - unfold uploadFiles_resume. destruct (nth_error (awaiting p) k);
      [destruct r|]; unfold count; simpl; lia.
  - unfold count; simpl; lia.
  - rewrite effect_handlers, effect_calls.
    destruct (client p) as [c|]; [|congruence].
    destruct (puts_of_started c (newFilesToUpload files (filesToUpload p)))
      as [P V].
    rewrite P, V, length_app. lia.
  - destruct (nth_error (inflight p) k); unfold count; simpl; lia.
  - destruct (nth_error (inflight p) k) as [file|] eqn:Hk;
      [|unfold count; simpl; lia].
    pose proof (drop_nth_length (inflight p) k file Hk) as Hl.
    destruct o; unfold count; simpl; lia.
  - unfold count; simpl; lia.
  - unfold count; simpl; lia.
Qed.

(** X4: once the client is there, transfers are neither lost nor reported
    twice: at any time the calls of [client.put] made so far, plus the
    handlers that were waiting at the start, are as many as the handlers
    still waiting plus the calls of [markFileCompleted] and [markFileFailed]
    made so far. *)
Theorem transfers_balance (evs : list Event) (p : Provider) :
  client p <> None ->
  count is_put (snd (run evs p)) + length (inflight p) =
  length (inflight (fst (run evs p))) + count is_verdict (snd (run evs p)).
Proof.
  revert p. induction evs as [|ev evs IH]; intros p Hc; simpl;
    [unfold count; simpl; lia|].
  pose proof (step_balance ev p Hc) as Hs.
  pose proof (step_client_set ev p Hc) as Hc1.
  destruct (step ev p) as [p1 c1]. simpl in Hs, Hc1.
  specialize (IH p1 Hc1). destruct (run evs p1) as [p2 c2]. simpl in IH |- *.
  rewrite !count_app. lia.
Qed.

Lemma transfers_balance_witness :
  let evs := [Render [entryA; entryB]; PutSettled 1 Stored;
              CallClearUploadedFiles [entryA; completedB]; Render [entryA]] in
  client ready <> None /\
  count is_put (snd (run evs ready)) + length (inflight ready) =
  length (inflight (fst (run evs ready))) + count is_verdict (snd (run evs ready)).
Proof.
  cbv zeta. split; [discriminate|].
  apply transfers_balance. discriminate.
Defined.

(** ** Without a client *)

Lemma rendered_is_tracked (files : list FileProgress) (p : Provider)
    (e : FileProgress) :
  In e files ->
  has_file (inputFile e) (filesToUpload (fst (effect files p))) = true.
Proof.
  intro He. rewrite effect_tracking. apply has_file_witness.
  destruct (untracked (filesToUpload p) e) eqn:U.
  - exists e. split; [|reflexivity]. apply in_or_app. right.
    unfold newFilesToUpload. apply filter_In. split; assumption.
  - apply untracked_false in U. unfold idents in U. apply in_map_iff in U.
    destruct U as [t [Ht Hin]]. exists t.
    split; [apply in_or_app; left; exact Hin | exact Ht].
Qed.

(** X5: when the effect runs while [client] is still unset, every new entry
    is reported failed with the [TypeError] and logged, no transfer is
    started and no handler waits; the entries are tracked all the same, so
    no later event, with a client or not, ever starts a transfer for any
    file of that list. *)
Theorem effect_without_client (files : list FileProgress) (p : Provider) :
  client p = None ->
  snd (effect files p) =
    flat_map (fun e => [MarkFileFailed e TypeError; ConsoleError TypeError])
             (newFilesToUpload files (filesToUpload p)) /\
  inflight (fst (effect files p)) = inflight p /\
  (forall e evs, In e files ->
     count (is_put_of (inputFile e)) (snd (run evs (fst (effect files p)))) = 0).
Proof.
  intro Hc. split; [|split].
  - rewrite effect_calls, Hc. reflexivity.
  - rewrite effect_handlers, Hc. apply app_nil_r.
  - intros e evs He. apply tracked_never_put_again.
    apply rendered_is_tracked. exact He.
Qed.

Lemma effect_without_client_witness :
  client initial = None /\
  snd (effect [entryA; entryB] initial) =
    [MarkFileFailed entryA TypeError; ConsoleError TypeError;
     MarkFileFailed entryB TypeError; ConsoleError TypeError] /\
  count (is_put_of fileA)
    (snd (run [CallUploadFiles [] [fileA]; TokenSettled 0 (TokenOk "t1"%string);
               Render [entryA; entryB]]
              (fst (effect [entryA; entryB] initial)))) = 0.
Proof.
  split; [reflexivity|].
  destruct (effect_without_client [entryA; entryB] initial eq_refl)
    as [Hcalls [_ Hnever]].
  split.
  - rewrite Hcalls. reflexivity.
  - apply (Hnever entryA). left. reflexivity.
Defined.

(** ** A token that does not come *)

Lemma nth_error_last {A : Type} (l : list A) (x : A) :
  nth_error (l ++ [x]) (length l) = Some x.
Proof. induction l as [|y l IH]; simpl; [reflexivity | exact IH]. Qed.

Lemma drop_nth_last {A : Type} (l : list A) (x : A) :
  drop_nth (length l) (l ++ [x]) = l.
Proof.
  induction l as [|y l IH]; simpl; [reflexivity | rewrite IH; reflexivity].
Qed.

(** X6: when [uploadFiles] is called without a client and [getToken()]
    rejects, the provider is exactly as it was before the call: the only
    call made is [getToken()]; [initialize] is not called, so the files get
    no entry and no failure is reported for them; [client] stays unset. *)
Theorem rejected_token_leaves_no_trace
    (snapshot : list FileProgress) (files : list File) (err : Error)
    (p : Provider) :
  client p = None ->
  run [CallUploadFiles snapshot files;
       TokenSettled (length (awaiting p)) (TokenErr err)] p
  = (p, [GetToken]).
Proof.
  intro Hc. simpl. unfold uploadFiles_begin. rewrite Hc.
  unfold uploadFiles_resume. simpl.
  rewrite nth_error_last, drop_nth_last.
  destruct p. reflexivity.
Qed.

Lemma rejected_token_leaves_no_trace_witness :
  run [CallUploadFiles [] [fileA; fileB];
       TokenSettled 0 (TokenErr "no session"%string)] initial
  = (initial, [GetToken]).
Proof.
  apply (rejected_token_leaves_no_trace [] [fileA; fileB]
           "no session"%string initial).
  reflexivity.
Defined.

(** ** The listing *)

Lemma step_keeps_listing (ev : Event) (p : Provider) :
  is_listing ev = false -> listing_of (fst (step ev p)) = listing_of p.
Proof.
  intro H. destruct ev; try discriminate H; simpl.
  - unfold uploadFiles_begin. destruct (client p); reflexivity.
  - unfold uploadFiles_resume. destruct (nth_error (awaiting p) k);
      [destruct r|]; reflexivity.
  - reflexivity.
  - destruct (effect_unfold files p) as [E|[_ E]]; rewrite E; reflexivity.
  - destruct (nth_error (inflight p) k); reflexivity.
  - destruct (nth_error (inflight p) k); reflexivity.
Qed.

Lemma last_cons {A : Type} (l : list A) (x d : A) :
  last (x :: l) d = last l x.
Proof.
  revert x d. induction l as [|y l IH]; intros x d; [reflexivity|].
  change (last (x :: y :: l) d) with (last (y :: l) d).
  rewrite (IH y d), (IH y x). reflexivity.
Qed.

(** X7: after any run, [totalUploads] is the count of the last page that
    arrived with a truthy count, and its old value when no such page
    arrived; [uploads] is the result list of the last page that arrived,
    whatever its count.  So a page of no results with count 0 empties the
    list and leaves the old total. *)
Theorem total_is_latest_truthy_count (evs : list Event) (p : Provider) :
  totalUploads (fst (run evs p)) =
    match latest_count (pages_of evs) with
    | Some c => c
    | None => totalUploads p
    end /\
  uploads (fst (run evs p)) = last (map results (pages_of evs)) (uploads p).
Proof.
  revert p. induction evs as [|ev evs IH]; intro p; [split; reflexivity|].
  simpl run. destruct (step ev p) as [p1 c1] eqn:S.
  specialize (IH p1). destruct (run evs p1) as [p2 c2]. simpl fst in *.
  destruct IH as [IHt IHu].
  destruct (is_listing ev) eqn:L.
  - destruct ev; try discriminate L; simpl in S; inversion S; subst p1 c1;
      simpl pages_of.
    + simpl in IHt, IHu. split; assumption.
    + simpl latest_count. rewrite IHt, IHu. split.
      * destruct (latest_count (pages_of evs)); [reflexivity|].
        simpl. destruct (truthy (meta_count updatedUploads)); reflexivity.
      * simpl map. rewrite last_cons. reflexivity.
  - pose proof (step_keeps_listing ev p L) as K. rewrite S in K. simpl in K.
    unfold listing_of in K. inversion K as [[Hu Ht Hb Hd]].
    rewrite Ht, Hu in *.
    destruct ev; try discriminate L; simpl pages_of; split; assumption.
Qed.

Lemma total_is_latest_truthy_count_example :
  let p := fst (run [CallGetUploads None; GetUploadsSettled (pageOf 7) 100;
                     CallGetUploads None; GetUploadsSettled emptyPage 200]
                    initial) in
  totalUploads p = JsNum 7 /\ uploads p = [] /\ fetchDate p = Some 200%Z.
Proof. repeat split. Qed.

Lemma step_total_stays_truthy (ev : Event) (p : Provider) :
  truthy (totalUploads p) = true ->
  truthy (totalUploads (fst (step ev p))) = true.
Proof.
  intro H. destruct (is_listing ev) eqn:L.
  - destruct ev; try discriminate L; simpl; [exact H|].
    destruct (truthy (meta_count updatedUploads)) eqn:T; assumption.
  - pose proof (step_keeps_listing ev p L) as K.
    unfold listing_of in K. inversion K as [[Hu Ht Hb Hd]].
    rewrite Ht. exact H.
Qed.

(** X8: once [totalUploads] holds a number other than zero it never goes
    back to zero, nor to any other falsy value, whatever pages arrive and
    whatever else happens. *)
Theorem total_never_falls_back (evs : list Event) (p : Provider) :
  truthy (totalUploads p) = true ->
  truthy (totalUploads (fst (run evs p))) = true.
Proof.
  revert p. induction evs as [|ev evs IH]; intros p H; [exact H|].
  simpl. pose proof (step_total_stays_truthy ev p H) as H1.
  destruct (step ev p) as [p1 c1]. simpl in H1.
  specialize (IH p1 H1). destruct (run evs p1) as [p2 c2]. exact IH.
Qed.

Lemma total_never_falls_back_witness :
  truthy (totalUploads
            (fst (run [GetUploadsSettled emptyPage 200;
                       GetUploadsSettled (mkPage [] JsNaN) 300]
                      (fst (run [GetUploadsSettled (pageOf 7) 100] initial)))))
  = true.
Proof.
  apply (total_never_falls_back
           [GetUploadsSettled emptyPage 200;
            GetUploadsSettled (mkPage [] JsNaN) 300]).
  reflexivity.
Defined.

Lemma run_keeps_fetching (rest : list Event) :
  forall p,
    forallb (fun ev => negb (is_response ev)) rest = true ->
    isFetchingUploads p = true ->
    isFetchingUploads (fst (run rest p)) = true.
Proof.
  induction rest as [|ev rest IH]; intros p Hq Hf; [exact Hf|].
  simpl in Hq. apply andb_true_iff in Hq. destruct Hq as [Hev Hq].
  simpl.
  assert (H1 : isFetchingUploads (fst (step ev p)) = true).
  { destruct (is_listing ev) eqn:L.
    - destruct ev; try discriminate L; [reflexivity | discriminate Hev].
    - pose proof (step_keeps_listing ev p L) as K.
      unfold listing_of in K. inversion K as [[Hu Ht Hb Hd]].
      rewrite Hb. exact Hf. }
  destruct (step ev p) as [p1 c1]. simpl in H1.
  specialize (IH p1 Hq H1). destruct (run rest p1) as [p2 c2]. exact IH.
Qed.

(** X9: from a call of [getUploads] on, [isFetchingUploads] stays [true]
    until a page arrives, whatever else happens; when the request fails
    instead, the flag is left [true], the lists and the total are untouched,
    and the error goes to the caller. *)
Theorem fetching_until_a_page_arrives
    (evs rest : list Event) (args : option UploadArgs) (err : Error) (now : Z)
    (p : Provider) :
  forallb (fun ev => negb (is_response ev)) rest = true ->
  let waiting := fst (run (evs ++ CallGetUploads args :: rest) p) in
  isFetchingUploads waiting = true /\
  getUploadsCallback_settle (Rejected err) now waiting
    = (waiting, Rejected err).
Proof.
  intro Hq. cbv zeta. split; [|reflexivity].
  rewrite run_app. simpl fst.
  set (p0 := fst (run evs p)).
  simpl. destruct (run rest _) as [p2 c2] eqn:R. simpl.
  replace p2 with
    (fst (run rest (fst (getUploadsCallback_begin args p0))))
    by (unfold getUploadsCallback_begin; simpl; rewrite R; reflexivity).
  apply run_keeps_fetching; [exact Hq | reflexivity].
Qed.

Lemma fetching_until_a_page_arrives_witness :
  isFetchingUploads
    (fst (run ([GetUploadsSettled (pageOf 7) 100]
               ++ CallGetUploads None
               :: [CallUploadFiles [] [fileA]; CallGetUploads None;
                   TokenSettled 0 (TokenOk "t1"%string); Render [entryA]])
              initial))
  = true.
Proof.
  apply (fetching_until_a_page_arrives
           [GetUploadsSettled (pageOf 7) 100]
           [CallUploadFiles [] [fileA]; CallGetUploads None;
            TokenSettled 0 (TokenOk "t1"%string); Render [entryA]]
           None "offline"%string 0%Z initial).
  reflexivity.
Defined.

(** ** Uploads and listing side by side *)

Lemma start_upload_lists_nothing (c : option Client) (new : list FileProgress) :
  filter (fun c => negb (is_get_uploads c)) (flat_map (start_upload c) new)
  = flat_map (start_upload c) new.
Proof.
  induction new as [|e new IH]; [reflexivity|].
  simpl. rewrite filter_app, IH. destruct c; reflexivity.
Qed.

Lemma step_upload_side (ev : Event) (p q : Provider) :
  is_listing ev = false ->
  tracking_of p = tracking_of q ->
  tracking_of (fst (step ev p)) = tracking_of (fst (step ev q)) /\
  snd (step ev p) = snd (step ev q) /\
  filter (fun c => negb (is_get_uploads c)) (snd (step ev q)) = snd (step ev q).
Proof.
  intros L H. destruct p, q. unfold tracking_of in H. simpl in H.
  inversion H; subst; clear H.
  destruct ev; try discriminate L; simpl.
  - unfold uploadFiles_begin. simpl. destruct client1; repeat split.
  - unfold uploadFiles_resume. simpl.
    destruct (nth_error awaiting1 k); [destruct r|]; repeat split.
  - repeat split.
  - unfold effect. simpl.
    destruct (negb (length (newFilesToUpload files filesToUpload1) =? 0));
      simpl; repeat split.
    apply start_upload_lists_nothing.
  - destruct (nth_error inflight1 k); repeat split.
  - destruct (nth_error inflight1 k); [destruct o|]; repeat split.
Qed.

Lemma step_listing_side (ev : Event) (p q : Provider) :
  is_listing ev = true ->
  tracking_of (fst (step ev p)) = tracking_of p /\
  filter (fun c => negb (is_get_uploads c)) (snd (step ev p)) = [] /\
  (listing_of p = listing_of q ->
   listing_of (fst (step ev p)) = listing_of (fst (step ev q))).
Proof.
  intro L. destruct ev; try discriminate L; simpl; repeat split.
  - intro H. unfold listing_of in H |- *. simpl. inversion H. reflexivity.
  - intro H. unfold listing_of in H |- *. simpl. inversion H. reflexivity.
Qed.

Lemma run_upload_side (evs : list Event) :
  forall p q,
    tracking_of p = tracking_of q ->
    tracking_of (fst (run evs p)) =
      tracking_of (fst (run (filter (fun ev => negb (is_listing ev)) evs) q)) /\
    filter (fun c => negb (is_get_uploads c)) (snd (run evs p)) =
      snd (run (filter (fun ev => negb (is_listing ev)) evs) q).
Proof.
  induction evs as [|ev evs IH]; intros p q H; [split; [exact H | reflexivity]|].
  simpl. destruct (is_listing ev) eqn:L; simpl.
  - destruct (step_listing_side ev p q L) as [T [F _]].
    destruct (step ev p) as [p1 c1]. simpl in T, F.
    assert (H1 : tracking_of p1 = tracking_of q) by (rewrite T; exact H).
    destruct (IH p1 q H1) as [IHt IHc].
    destruct (run evs p1) as [p2 c2]. simpl in IHt, IHc |- *.
    rewrite filter_app, F. split; assumption.
  - destruct (step_upload_side ev p q L H) as [T [C F]].
    destruct (step ev p) as [p1 c1]. destruct (step ev q) as [q1 d1].
    simpl in T, C, F. subst d1.
    destruct (IH p1 q1 T) as [IHt IHc].
    destruct (run evs p1) as [p2 c2].
    destruct (run (filter (fun ev => negb (is_listing ev)) evs) q1) as [q2 d2].
    simpl in IHt, IHc |- *.
    rewrite filter_app, F, IHc. split; [exact IHt | reflexivity].
Qed.

Lemma run_listing_side (evs : list Event) :
  forall p q,
    listing_of p = listing_of q ->
    listing_of (fst (run evs p)) =
      listing_of (fst (run (filter is_listing evs) q)).
Proof.
  induction evs as [|ev evs IH]; intros p q H; [exact H|].
  simpl. destruct (is_listing ev) eqn:L; simpl.
  - destruct (step_listing_side ev p q L) as [_ [_ K]]. specialize (K H).
    destruct (step ev p) as [p1 c1]. destruct (step ev q) as [q1 d1].
    simpl in K. specialize (IH p1 q1 K).
    destruct (run evs p1). destruct (run (filter is_listing evs) q1).
    exact IH.
  - pose proof (step_keeps_listing ev p L) as K.
    destruct (step ev p) as [p1 c1]. simpl in K.
    assert (H1 : listing_of p1 = listing_of q) by (rewrite K; exact H).
    specialize (IH p1 q H1).
    destruct (run evs p1). exact IH.
Qed.

(** X10: uploads and listing do not touch each other.  In any run, the
    client, the waiting calls, [filesToUpload], the waiting handlers and all
    calls other than [getUploads] are those of the same run with the
    [getUploads] events taken out; and [uploads], [totalUploads],
    [isFetchingUploads] and [fetchDate] are those of the run of the
    [getUploads] events alone. *)
Theorem uploads_and_listing_apart (evs : list Event) (p : Provider) :
  tracking_of (fst (run evs p)) =
    tracking_of (fst (run (filter (fun ev => negb (is_listing ev)) evs) p)) /\
  filter (fun c => negb (is_get_uploads c)) (snd (run evs p)) =
    snd (run (filter (fun ev => negb (is_listing ev)) evs) p) /\
  listing_of (fst (run evs p)) =
    listing_of (fst (run (filter is_listing evs) p)).
Proof.
  destruct (run_upload_side evs p p eq_refl) as [T C].
  split; [exact T|]. split; [exact C|].
  apply run_listing_side. reflexivity.
Qed.

(** ** The pins *)

Lemma pins_run_app {P : Type} (l1 l2 : list (PinsEvent P)) (s : Pins P) :
  pins_run (l1 ++ l2) s = pins_run l2 (pins_run l1 s).
Proof. unfold pins_run. apply fold_left_app. Qed.

Lemma pins_run_waiting {P : Type} (rest : list (PinsEvent P)) :
  forall s,
    forallb (fun ev => negb (is_pins_answer ev)) rest = true ->
    isFetchingPinned s = true ->
    isFetchingPinned (pins_run rest s) = true /\
    pinned (pins_run rest s) = pinned s /\
    fetchPinsDate (pins_run rest s) = fetchPinsDate s.
Proof.
  induction rest as [|ev rest IH]; intros s Hq Hf; [repeat split; exact Hf|].
  simpl in Hq. apply andb_true_iff in Hq. destruct Hq as [Hev Hq].
  change (pins_run (ev :: rest) s) with (pins_run rest (pins_step ev s)).
  destruct ev as [status token | [resp|err] now]; simpl in Hev;
    try discriminate Hev.
  - destruct (IH (pins_step (CallListPinned status token) s) Hq eq_refl)
      as [F [Pn D]].
    repeat split; assumption.
  - destruct (IH (pins_step (ListPinsSettled (Rejected err) now) s) Hq Hf)
      as [F [Pn D]].
    repeat split; assumption.
Qed.

(** X11: a page of pins, once it arrives, replaces [pinned] whole, stamps
    [fetchPinsDate] and lowers [isFetchingPinned], whatever was asked for
    and whatever was there.  From a call of [listPinned] on, until a page
    arrives, [isFetchingPinned] stays [true] and [pinned] and
    [fetchPinsDate] keep their values; a request that fails changes nothing,
    so it leaves the flag up. *)
Theorem pins_until_a_page_arrives {P : Type}
    (evs rest : list (PinsEvent P)) (status token : string)
    (pinsResponse : PinsList P) (now : Z) (s : Pins P) :
  forallb (fun ev => negb (is_pins_answer ev)) rest = true ->
  let waiting := pins_run (evs ++ CallListPinned status token :: rest) s in
  isFetchingPinned waiting = true /\
  pinned waiting = pinned (pins_run evs s) /\
  fetchPinsDate waiting = fetchPinsDate (pins_run evs s) /\
  pins_step (ListPinsSettled (Resolved pinsResponse) now) waiting
    = mkPins (pins_results pinsResponse) false (Some now).
Proof.
  intro Hq. cbv zeta. rewrite pins_run_app.
  change (pins_run (CallListPinned status token :: rest) (pins_run evs s))
    with (pins_run rest
            (pins_step (CallListPinned status token) (pins_run evs s))).
  destruct (pins_run_waiting rest
              (pins_step (CallListPinned status token) (pins_run evs s))
              Hq eq_refl) as [F [Pn D]].
  repeat split; assumption.
Qed.

Lemma pins_until_a_page_arrives_witness :
  isFetchingPinned
    (pins_run ([ListPinsSettled (Resolved (mkPinsList (JsNum 1) ["pin1"%string])) 5]
               ++ CallListPinned "pinned" "token"
               :: [ListPinsSettled (Rejected "offline"%string) 9;
                   CallListPinned "queued" "token";
                   ListPinsSettled (Rejected "offline"%string) 12])
              no_pins)
  = true.
Proof.
  apply (pins_until_a_page_arrives
           [ListPinsSettled (Resolved (mkPinsList (JsNum 1) ["pin1"%string])) 5]
           [ListPinsSettled (Rejected "offline"%string) 9;
            CallListPinned "queued" "token";
            ListPinsSettled (Rejected "offline"%string) 12]
           "pinned" "token" (mkPinsList JsNull []) 0%Z no_pins).
  reflexivity.
Defined.

(** ** The arguments of getUploads *)

Lemma get_assign (k k' : string) (v : ArgValue) (o : JsObject) :
  get k (assign k' v o) = if String.eqb k' k then Some v else get k o.
Proof.
  induction o as [|[k0 v0] o IH]; simpl; [reflexivity|].
  destruct (String.eqb k0 k') eqn:E0; simpl.
  - apply String.eqb_eq in E0. subst k0.
    destruct (String.eqb k' k); reflexivity.
  - rewrite IH. destruct (String.eqb k0 k) eqn:E1; [|reflexivity].
    destruct (String.eqb k' k) eqn:E2; [|reflexivity].
    apply String.eqb_eq in E1. apply String.eqb_eq in E2. subst.
    rewrite String.eqb_refl in E0. discriminate E0.
Qed.

Lemma get_spread (k : string) (src : JsObject) :
  forall o,
    get k (spread o src) =
    match last_given k src with
    | Some v => Some v
    | None => get k o
    end.
Proof.
  unfold spread. induction src as [|[k' v] src IH]; intro o; simpl;
    [reflexivity|].
  rewrite IH, get_assign.
  destruct (last_given k src); [reflexivity|].
  destruct (String.eqb k' k); reflexivity.
Qed.

(** X16: in the arguments handed to [getUploads], a property the caller
    passed holds the caller's value, the last one if it was passed twice
    and [undefined] if that is what was passed; a property the caller did
    not pass holds the default if it is one of [size], [sortBy], [page],
    [sortOrder], and is absent otherwise.  With no arguments the defaults go
    out as they are. *)
Theorem uArgs_caller_wins (args : UploadArgs) (k : string) :
  get k (uArgs (Some args)) =
    match last_given k args with
    | Some v => Some v
    | None => get k (uArgs None)
    end /\
  uArgs None = [("size", ArgNumber 10); ("sortBy", ArgString "Date");
                ("page", ArgNumber 0); ("sortOrder", ArgString "Desc")]%string.
Proof.
  split; [|reflexivity]. unfold uArgs. rewrite get_spread. reflexivity.
Qed.

Lemma uArgs_example :
  uArgs (Some [("page", ArgNumber 2); ("size", ArgUndefined);
               ("search", ArgString "cat")]%string)
  = [("size", ArgUndefined); ("sortBy", ArgString "Date");
     ("page", ArgNumber 2); ("sortOrder", ArgString "Desc");
     ("search", ArgString "cat")]%string.
Proof. reflexivity. Qed.

(** * One entry and one transfer for each file *)

(** ** What holds after any actions *)

Lemma step_puts_nothing (a : Action) (p : Provider)
    (files : list FileProgress) (f : File) :
  filesToUpload (fst (step (react a files) p)) = filesToUpload p /\
  count (is_put_of f) (snd (step (react a files) p)) = 0.
Proof.
  destruct a; simpl.
  - unfold uploadFiles_begin. destruct (client p); split; reflexivity.
  - unfold uploadFiles_resume. destruct (nth_error (awaiting p) k);
      [destruct r|]; split; reflexivity.
  - split; reflexivity.
  - destruct (nth_error (inflight p) k); split; reflexivity.
  - destruct o, (nth_error (inflight p) k); split; reflexivity.
Qed.

Lemma on_identity_orderly (p p' : Provider) (files : list FileProgress)
    (file : FileProgress) (g : FileProgress -> FileProgress) :
  orderly p files ->
  (forall e, ident (g e) = ident e) ->
  client p' = client p ->
  awaiting p' = awaiting p ->
  filesToUpload p' = filesToUpload p ->
  orderly p' (ProgressHook.on_identity file g files).
Proof.
  intros [D T K W] Hg Hc Ha Hf. constructor.
  - rewrite on_identity_idents; assumption.
  - rewrite Hf. exact T.
  - rewrite Hc. intro Hn. rewrite (K Hn). reflexivity.
  - rewrite Ha. exact W.
Qed.

Lemma handler_orderly (a : Action) (p : Provider) (files : list FileProgress) :
  orderly p files ->
  orderly (fst (step (react a files) p))
          (ProgressHook.run (snd (step (react a files) p)) files).
Proof.
  intros O. pose proof O as [D T K W]. destruct a; simpl.
  - unfold uploadFiles_begin. destruct (client p) as [c|] eqn:Hc; simpl.
    + destruct (initialize_appends files files0) as [fresh [E [_ Hd]]].
      rewrite E. constructor; simpl; try assumption.
      * apply Hd. exact D.
      * intro H. discriminate H.
    + constructor; simpl; try assumption.
      * intros _. exact (K eq_refl).
      * intros inv Hin. apply in_app_or in Hin.
        destruct Hin as [Hin|[Hin|[]]]; [exact (W inv Hin)|].
        subst inv. simpl. exact (K eq_refl).
  - unfold uploadFiles_resume.
    destruct (nth_error (awaiting p) k) as [inv|] eqn:Hk; simpl; [|exact O].
    pose proof (W inv (nth_error_In _ _ Hk)) as Hs.
    assert (W' : forall i, In i (drop_nth k (awaiting p)) -> inv_snapshot i = []).
    { intros i Hi. apply W. exact (drop_nth_In _ k i Hi). }
    destruct r; simpl.
    + rewrite Hs.
      destruct (initialize_appends [] (inv_files inv)) as [fresh [E [_ Hd]]].
      rewrite E. constructor; simpl; try assumption.
      * apply Hd. constructor.
      * intro H. discriminate H.
    + constructor; simpl; assumption.
  - rewrite initialize_entries. constructor; try assumption.
    + apply idents_filter_NoDup. exact D.
    + intro Hn. rewrite (K Hn). reflexivity.
  - destruct (nth_error (inflight p) k) as [file|]; simpl; [|exact O].
    apply on_identity_orderly with (p := p); try reflexivity; [exact O|].
    intro e. destruct (status_eqb (status e) UPLOADING); reflexivity.
  - destruct (nth_error (inflight p) k) as [file|]; simpl; [|exact O].
    destruct o; simpl;
      apply on_identity_orderly with (p := p); try reflexivity; try exact O.
    intro e. destruct (terminal (status e)); reflexivity.
Qed.

Lemma effect_orderly (p : Provider) (files : list FileProgress) (f : File) :
  orderly p files ->
  orderly (fst (effect files p))
          (ProgressHook.run (snd (effect files p)) files) /\
  count (is_put_of f) (snd (effect files p))
    + occurrences f (filesToUpload p)
  = occurrences f (filesToUpload (fst (effect files p))) /\
  (forall e, In e (ProgressHook.run (snd (effect files p)) files) ->
             has_file (inputFile e) (filesToUpload (fst (effect files p)))
             = true).
Proof.
  intros O. pose proof O as [D T K W].
  destruct (client p) as [c|] eqn:Hc.
  - assert (R : ProgressHook.run (snd (effect files p)) files = files).
    { rewrite effect_calls, Hc. apply puts_change_nothing. }
    rewrite R. split; [|split].
    + constructor.
      * exact D.
      * apply effect_keeps_distinct; assumption.
      * rewrite effect_client, Hc. intro H. discriminate H.
      * destruct (effect_unfold files p) as [E|[_ E]]; rewrite E; exact W.
    + rewrite effect_calls, effect_tracking, Hc, puts_of_new, occurrences_app.
      apply Nat.add_comm.
    + intros e He. apply rendered_is_tracked. exact He.
  - rewrite (K eq_refl). simpl. split; [|split].
    + rewrite <- (K eq_refl). exact O.
    + reflexivity.
    + intros e [].
Qed.

Lemma act_orderly (a : Action) (s : App) (f : File) :
  orderly (provider s) (progress_files s) ->
  orderly (provider (fst (act a s))) (progress_files (fst (act a s))) /\
  count (is_put_of f) (snd (act a s))
    + occurrences f (filesToUpload (provider s))
  = occurrences f (filesToUpload (provider (fst (act a s)))) /\
  (forall e, In e (progress_files (fst (act a s))) ->
             has_file (inputFile e)
                      (filesToUpload (provider (fst (act a s)))) = true).
Proof.
  intro O.
  pose proof (handler_orderly a (provider s) (progress_files s) O) as O1.
  destruct (step_puts_nothing a (provider s) (progress_files s) f) as [T1 P1].
  unfold act.
  destruct (step (react a (progress_files s)) (provider s)) as [p1 c1].
  simpl in O1, T1, P1.
  destruct (effect_orderly p1 (ProgressHook.run c1 (progress_files s)) f O1)
    as [O2 [P2 H2]].
  destruct (effect (ProgressHook.run c1 (progress_files s)) p1) as [p2 c2].
  simpl in O2, P2, H2 |- *.
  split; [exact O2|]. split; [|exact H2].
  rewrite count_app, P1, <- T1. exact P2.
Qed.

Lemma acts_orderly (l : list Action) (f : File) :
  forall s,
    orderly (provider s) (progress_files s) ->
    (forall e, In e (progress_files s) ->
               has_file (inputFile e) (filesToUpload (provider s)) = true) ->
    orderly (provider (fst (acts l s))) (progress_files (fst (acts l s))) /\
    count (is_put_of f) (snd (acts l s))
      + occurrences f (filesToUpload (provider s))
    = occurrences f (filesToUpload (provider (fst (acts l s)))) /\
    (forall e, In e (progress_files (fst (acts l s))) ->
               has_file (inputFile e)
                        (filesToUpload (provider (fst (acts l s)))) = true).
Proof.
  induction l as [|a l IH]; intros s O H; simpl.
  - split; [exact O|]. split; [reflexivity | exact H].
  - destruct (act_orderly a s f O) as [O1 [P1 H1]].
    destruct (act a s) as [s1 c1]. simpl in O1, P1, H1.
    destruct (IH s1 O1 H1) as [O2 [P2 H2]].
    destruct (acts l s1) as [s2 c2]. simpl in O2, P2, H2 |- *.
    split; [exact O2|]. split; [|exact H2].
    rewrite count_app. lia.
Qed.

Lemma mounted_orderly : orderly (provider mounted) (progress_files mounted).
Proof.
  constructor; simpl; try constructor; try reflexivity. intros inv [].
Qed.

Lemma mounted_all_tracked (e : FileProgress) :
  In e (progress_files mounted) ->
  has_file (inputFile e) (filesToUpload (provider mounted)) = true.
Proof. intros []. Qed.

(** C2: after any sequence of actions on a mounted provider, in any order
    and with calls of [uploadFiles] overlapping or not, [filesToUpload] holds
    no two entries with the same input file, and no more does
    [progress.files].  The identity is the file object: two files that are
    different objects are tracked side by side, whatever their names and
    sizes. *)
Theorem tracked_set_has_no_duplicates (l : list Action) :
  NoDup (idents (filesToUpload (provider (fst (acts l mounted))))) /\
  NoDup (idents (progress_files (fst (acts l mounted)))) /\
  (forall f g token,
     file_ref f <> file_ref g ->
     idents (filesToUpload
               (provider (fst (acts [UploadFiles [f; g];
                                     Token 0 (TokenOk token)] mounted))))
     = [file_ref f; file_ref g]).
Proof.
  destruct (acts_orderly l fileA mounted mounted_orderly mounted_all_tracked)
    as [[D T _ _] _].
  split; [exact T|]. split; [exact D|].
  intros f g token Hfg.
  assert (Efg : Nat.eqb (file_ref f) (file_ref g) = false)
    by (apply Nat.eqb_neq; exact Hfg).
  unfold acts, act. simpl. unfold ProgressHook.initialize. simpl.
  unfold ProgressHook.present, same_file. simpl. rewrite Efg. simpl.
  unfold effect, newFilesToUpload, untracked, same_file. simpl.
  reflexivity.
Qed.

(** Submitting the same file twice, at once or again later, tracks it
    once. *)
Lemma tracked_once_example :
  idents (filesToUpload
            (provider (fst (acts [UploadFiles [fileA; fileA];
                                  Token 0 (TokenOk "t1"%string);
                                  UploadFiles [fileA; fileA_again]] mounted))))
  = [file_ref fileA; file_ref fileA_again].
Proof. reflexivity. Qed.

(** C4: after any sequence of actions on a mounted provider, [client.put]
    has been called exactly once for every file that is tracked and never
    for any other file, so no action ever adds a second call for a file; and
    every entry of [progress.files] is for a tracked file, so each has had
    its one call. *)
Theorem one_put_for_each_identity (l : list Action) (f : File) :
  count (is_put_of f) (snd (acts l mounted)) =
    (if has_file f (filesToUpload (provider (fst (acts l mounted))))
     then 1 else 0) /\
  (forall e, In e (progress_files (fst (acts l mounted))) ->
             count (is_put_of (inputFile e)) (snd (acts l mounted)) = 1).
Proof.
  assert (Hall : forall g,
            count (is_put_of g) (snd (acts l mounted)) =
            if has_file g (filesToUpload (provider (fst (acts l mounted))))
            then 1 else 0).
  { intro g.
    destruct (acts_orderly l g mounted mounted_orderly mounted_all_tracked)
      as [[_ T _ _] [P _]].
    simpl in P. rewrite Nat.add_0_r in P. rewrite P.
    apply occurrences_distinct. exact T. }
  split; [apply Hall|].
  intros e He. rewrite Hall.
  destruct (acts_orderly l f mounted mounted_orderly mounted_all_tracked)
    as [_ [_ H]].
  rewrite (H e He). reflexivity.
Qed.

(** Scenario: A and B are submitted, A fails, A is submitted again with C;
    one call each, none again for A. *)
Lemma one_put_example :
  filter is_put
    (snd (acts [UploadFiles [fileA; fileB]; Token 0 (TokenOk "t1"%string);
                Settle 0 (Threw "E"%string);
                UploadFiles [fileA; fileA_again]] mounted))
  = [ClientPut (mkClient "t1" 0) fileA "a.txt";
     ClientPut (mkClient "t1" 0) fileB "b.txt";
     ClientPut (mkClient "t1" 0) fileA_again "a.txt"].
Proof. reflexivity. Qed.

(** * The table of customers *)

Import Migration.

Lemma value_eqb_true (a b : Value) : value_eqb a b = true <-> a = b.
Proof.
  destruct a, b; simpl; split; intro H; try reflexivity; try discriminate H.
  - apply Z.eqb_eq in H. subst. reflexivity.
  - inversion H. apply Z.eqb_refl.
  - apply String.eqb_eq in H. subst. reflexivity.
  - inversion H. apply String.eqb_refl.
Qed.

Lemma member_In (v : Value) (l : list Value) : member v l = true <-> In v l.
Proof.
  unfold member. rewrite existsb_exists. split.
  - intros [x [Hx He]]. apply value_eqb_true in He. subst x. exact Hx.
  - intro H. exists v. split; [exact H | apply value_eqb_true; reflexivity].
Qed.

Lemma column_snoc (i : nat) (rows : list (list Value)) (row : list Value) :
  column i (rows ++ [row]) = column i rows ++ [nth i row Null].
Proof. unfold column. rewrite map_app. reflexivity. Qed.

Lemma admits_all_nth (db : Database) (t : Table) (cols : list Column) :
  forall k row,
    admits_all db t k cols row = true ->
    forall i c, nth_error cols i = Some c ->
                admits db t (k + i) c (nth i row Null) = true.
Proof.
  induction cols as [|c0 cols IH]; intros k row H i c Hi.
  - destruct i; discriminate Hi.
  - destruct row as [|v row]; [discriminate H|].
    simpl in H. apply andb_true_iff in H. destruct H as [H0 H].
    destruct i; simpl in Hi |- *.
    + inversion Hi. subst c0. rewrite Nat.add_0_r. exact H0.
    + rewrite Nat.add_succ_r. apply (IH (S k) row H i c Hi).
Qed.

Lemma non_null_snoc (l : list Value) (v : Value) :
  non_null (l ++ [v]) = if is_null v then non_null l else non_null l ++ [v].
Proof.
  unfold non_null. rewrite filter_app. simpl.
  destruct (is_null v); simpl; [apply app_nil_r | reflexivity].
Qed.

Lemma NoDup_snoc {A : Type} (l : list A) (x : A) :
  NoDup l -> ~ In x l -> NoDup (l ++ [x]).
Proof.
  intros Hl Hx. apply NoDup_app; [exact Hl | repeat constructor; intros [] |].
  intros a Ha [Hax|[]]. subst a. exact (Hx Ha).
Qed.

Lemma column_sound_insert (db : Database) (t : Table) (i : nat) (c : Column)
    (row : list Value) (next : Z) :
  column_sound t i c ->
  admits db t i c (nth i row Null) = true ->
  column_sound (mkTable (t_def t) (t_rows t ++ [row]) next) i c.
Proof.
  intros [Hd Hm] Ha. unfold admits in Ha.
  apply andb_true_iff in Ha. destruct Ha as [Ha _].
  apply andb_true_iff in Ha. destruct Ha as [Ha Hu].
  apply andb_true_iff in Ha. destruct Ha as [_ Hn].
  unfold column_sound. simpl. rewrite column_snoc. split.
  - intro D. rewrite non_null_snoc, D in *. simpl in Hu.
    destruct (is_null (nth i row Null)) eqn:N; [exact (Hd eq_refl)|].
    simpl in Hu. apply negb_true_iff in Hu.
    apply NoDup_snoc; [exact (Hd eq_refl)|].
    intro Hin. unfold non_null in Hin. apply filter_In in Hin.
    destruct Hin as [Hin _]. apply member_In in Hin. congruence.
  - intros M Hin. rewrite M in Hn. simpl in Hn. apply negb_true_iff in Hn.
    apply in_app_or in Hin. destruct Hin as [Hin|[Hin|[]]].
    + exact (Hm M Hin).
    + rewrite Hin in Hn. discriminate Hn.
Qed.

Lemma table_sound_insert (db : Database) (t : Table) (row : list Value)
    (next : Z) :
  table_sound t ->
  admits_all db t 0 (table_columns (t_def t)) row = true ->
  table_sound (mkTable (t_def t) (t_rows t ++ [row]) next).
Proof.
  intros Ht Ha i c Hi. simpl in Hi.
  apply column_sound_insert with (db := db); [exact (Ht i c Hi)|].
  exact (admits_all_nth db t _ 0 row Ha i c Hi).
Qed.

Lemma lookup_named (name : string) (db : Database) (t : Table) :
  lookup name db = Some t -> table_name (t_def t) = name.
Proof.
  intro H. apply find_some in H. destruct H as [_ H].
  apply String.eqb_eq. exact H.
Qed.

Lemma lookup_replace (n name : string) (t' : Table) (db : Database) :
  table_name (t_def t') = name ->
  lookup n (replace name t' db) =
  option_map (fun t => if named name t then t' else t) (lookup n db).
Proof.
  intro Hn. unfold lookup, replace.
  induction db as [|t db IH]; [reflexivity|].
  simpl. destruct (named name t) eqn:N.
  - assert (E : named n t' = named n t).
    { unfold named in N |- *. apply String.eqb_eq in N.
      rewrite Hn, N. reflexivity. }
    rewrite E. destruct (named n t); [simpl; rewrite N; reflexivity | exact IH].
  - destruct (named n t); [simpl; rewrite N; reflexivity | exact IH].
Qed.

Lemma lookup_app (n : string) (db : Database) (t : Table) :
  lookup n (db ++ [t]) =
  match lookup n db with
  | Some x => Some x
  | None => if named n t then Some t else None
  end.
Proof.
  unfold lookup. induction db as [|x db IH]; simpl.
  - destruct (named n t); reflexivity.
  - destruct (named n x); [reflexivity | exact IH].
Qed.

Lemma insert_shape (name : string) (given : list (option Value))
    (db : Database) :
  fst (insert name given db) = db \/
  exists t0 rows' next,
    lookup name db = Some t0 /\
    fst (insert name given db)
      = replace name (mkTable (t_def t0) rows' next) db /\
    (rows' = t_rows t0 \/
     exists row, rows' = t_rows t0 ++ [row] /\
                 admits_all db t0 0 (table_columns (t_def t0)) row = true).
Proof.
  unfold insert. destruct (lookup name db) as [t0|] eqn:L; [|left; reflexivity].
  destruct (length (table_columns (t_def t0)) <? length given);
    [left; reflexivity|].
  right.
  destruct (admits_all db t0 0 (table_columns (t_def t0))
              (fill (t_next t0) (table_columns (t_def t0)) given)) eqn:A.
  - eexists t0, _, _. split; [reflexivity|]. split; [reflexivity|].
    right. eexists. split; [reflexivity | exact A].
  - eexists t0, _, _. split; [reflexivity|]. split; [reflexivity|].
    left. reflexivity.
Qed.

Lemma column_incl (j : nat) (rows rows' : list (list Value)) :
  incl rows rows' -> incl (column j rows) (column j rows').
Proof.
  intros H v Hv. unfold column in *. apply in_map_iff in Hv.
  destruct Hv as [r [Hr Hin]]. apply in_map_iff. exists r.
  split; [exact Hr | exact (H r Hin)].
Qed.

Lemma referenced_replace (ref : string * string) (name : string)
    (t0 : Table) (rows' : list (list Value)) (next : Z) (db : Database) :
  lookup name db = Some t0 ->
  incl (t_rows t0) rows' ->
  incl (referenced ref db)
       (referenced ref (replace name (mkTable (t_def t0) rows' next) db)).
Proof.
  intros L Hrows. unfold referenced.
  rewrite lookup_replace by (simpl; exact (lookup_named name db t0 L)).
  destruct (lookup (fst ref) db) as [rt|] eqn:R; simpl; [|intros v []].
  destruct (named name rt) eqn:N; [|apply incl_refl].
  assert (E : rt = t0).
  { unfold named in N. apply String.eqb_eq in N.
    rewrite <- (lookup_named _ _ _ R) in R. rewrite N in R. congruence. }
  subst rt. simpl.
  destruct (column_index (snd ref) (table_columns (t_def t0)));
    [apply column_incl; exact Hrows | apply incl_refl].
Qed.

Lemma referenced_grows (s : Statement) (ref : string * string) (db : Database) :
  incl (referenced ref db) (referenced ref (exec s db)).
Proof.
  destruct s as [name given|]; simpl.
  - destruct (insert_shape name given db) as [E|[t0 [rows' [next [L [E Hr]]]]]];
      rewrite E; [apply incl_refl|].
    apply referenced_replace; [exact L|].
    destruct Hr as [Hr|[row [Hr _]]]; rewrite Hr;
      [apply incl_refl | apply incl_appl, incl_refl].
  - unfold migrate, create_table_if_not_exists.
    destruct (lookup (table_name user_customer) db); [apply incl_refl|].
    destruct (references_resolve user_customer db); [|apply incl_refl].
    simpl. unfold referenced. rewrite lookup_app.
    destruct (lookup (fst ref) db); [apply incl_refl | intros v []].
Qed.

Lemma refs_hold_grows (s : Statement) (db : Database) (t : Table) :
  refs_hold db t -> refs_hold (exec s db) t.
Proof.
  intros H i c ref v Hi Hc Hv.
  destruct (H i c ref v Hi Hc Hv) as [N|Hin]; [left; exact N | right].
  exact (referenced_grows s ref db v Hin).
Qed.

Lemma exec_keeps_table (s : Statement) (db : Database) (n : string)
    (t : Table) :
  lookup n db = Some t ->
  table_sound t ->
  refs_hold db t ->
  exists t',
    lookup n (exec s db) = Some t' /\
    t_def t' = t_def t /\
    table_sound t' /\
    refs_hold (exec s db) t'.
Proof.
  intros L St Rt.
  pose proof (refs_hold_grows s db t Rt) as Rt'.
  destruct s as [name given|].
  - simpl in Rt' |- *.
    destruct (insert_shape name given db) as [E|[t0 [rows' [next [L0 [E Hr]]]]]];
      rewrite E in *.
    + exists t. split; [assumption|]. split; [reflexivity|]. split; assumption.
    + rewrite lookup_replace by (simpl; exact (lookup_named name db t0 L0)).
      rewrite L. simpl.
      destruct (named name t) eqn:N;
        [|exists t; split; [reflexivity|]; split; [reflexivity|];
          split; assumption].
      assert (Et : t0 = t).
      { unfold named in N. apply String.eqb_eq in N.
        rewrite <- N, (lookup_named n db t L) in L0. congruence. }
      subst t0. eexists. split; [reflexivity|]. split; [reflexivity|].
      destruct Hr as [Hr|[row [Hr Ha]]]; subst rows'.
      * split; [exact St | exact Rt'].
      * split; [apply table_sound_insert with (db := db); assumption|].
        intros i c ref v Hi Hc Hv. simpl in Hi, Hv.
        rewrite column_snoc in Hv. apply in_app_or in Hv.
        destruct Hv as [Hv|[Hv|[]]].
        -- exact (Rt' i c ref v Hi Hc Hv).
        -- pose proof (admits_all_nth db t _ 0 row Ha i c Hi) as A.
           simpl in A. unfold admits in A. rewrite Hc in A.
           apply andb_true_iff in A. destruct A as [_ A].
           apply orb_true_iff in A. rewrite Hv in A.
           destruct A as [A|A].
           ++ left. destruct v; [reflexivity | discriminate A | discriminate A].
           ++ right. apply member_In in A.
              apply (referenced_grows (Insert name given) ref db) in A.
              simpl in A. rewrite E in A. exact A.
  - simpl in Rt' |- *. unfold migrate, create_table_if_not_exists in *.
    revert Rt'.
    destruct (lookup (table_name user_customer) db);
      [intro Rt'; exists t; split; [assumption|]; split; [reflexivity|];
       split; assumption|].
    destruct (references_resolve user_customer db); intro Rt';
      [|exists t; split; [assumption|]; split; [reflexivity|];
        split; assumption].
    simpl in Rt' |- *. rewrite lookup_app, L.
    exists t. split; [reflexivity|]. split; [reflexivity|]. split; assumption.
Qed.

Lemma exec_all_keeps_table (ops : list Statement) :
  forall db n t,
    lookup n db = Some t ->
    table_sound t ->
    refs_hold db t ->
    exists t',
      lookup n (exec_all ops db) = Some t' /\
      t_def t' = t_def t /\
      table_sound t' /\
      refs_hold (exec_all ops db) t'.
Proof.
  induction ops as [|s ops IH]; intros db n t L St Rt.
  - exists t. split; [assumption|]. split; [reflexivity|]. split; assumption.
  - destruct (exec_keeps_table s db n t L St Rt) as [t1 [L1 [D1 [S1 R1]]]].
    destruct (IH (exec s db) n t1 L1 S1 R1) as [t2 [L2 [D2 [S2 R2]]]].
    exists t2. split; [exact L2|]. split; [congruence|]. split; assumption.
Qed.

Lemma empty_table_sound (d : TableDef) (next : Z) (db : Database) :
  table_sound (mkTable d [] next) /\ refs_hold db (mkTable d [] next).
Proof.
  split.
  - intros i c _. split; intros _; [constructor | intros []].
  - intros i c ref v _ _ [].
Qed.

Lemma whole_column (l : list Value) :
  ~ In Null l -> non_null l = l.
Proof.
  intro H. unfold non_null. induction l as [|v l IH]; [reflexivity|].
  simpl. destruct v; simpl.
  - exfalso. apply H. left. reflexivity.
  - rewrite IH; [reflexivity | intro Hin; apply H; right; exact Hin].
  - rewrite IH; [reflexivity | intro Hin; apply H; right; exact Hin].
Qed.

(** X12: the migration gives each user at most one customer and each
    customer at most one user.  When it creates [user_customer], then after
    any statements whatever (inserts into any table, accepted or refused, and
    the migration run again) the table is still there with the same
    definition, and none of [id], [user_id], [customer_id] holds [NULL] or
    holds a value twice. *)
Theorem one_customer_per_user (ops : list Statement) (db : Database) :
  snd (migrate db) = Created ->
  exists t,
    lookup "user_customer" (exec_all ops (fst (migrate db))) = Some t /\
    t_def t = user_customer /\
    (forall i, i < 3 -> NoDup (column i (t_rows t)) /\
                        ~ In Null (column i (t_rows t))).
Proof.
  intro Hc. unfold migrate, create_table_if_not_exists in Hc |- *.
  destruct (lookup (table_name user_customer) db) eqn:L; [discriminate Hc|].
  destruct (references_resolve user_customer db); [|discriminate Hc].
  simpl fst.
  destruct (empty_table_sound user_customer 1
              (db ++ [mkTable user_customer [] 1])) as [S0 R0].
  destruct (exec_all_keeps_table ops (db ++ [mkTable user_customer [] 1])
              "user_customer" (mkTable user_customer [] 1))
    as [t [Lt [Dt [St _]]]]; try assumption.
  { rewrite lookup_app. simpl in L. rewrite L. reflexivity. }
  exists t. split; [exact Lt|]. split; [exact Dt|].
  intros i Hi.
  assert (Hcol : exists c, nth_error (table_columns (t_def t)) i = Some c /\
                           distinct c = true /\ mandatory c = true).
  { rewrite Dt. destruct i as [|[|[|i]]]; [| | |lia];
      eexists; (split; [reflexivity|]); split; reflexivity. }
  destruct Hcol as [c [Hn [Hd Hm]]].
  destruct (St i c Hn) as [D M].
  split; [|exact (M Hm)].
  rewrite <- (whole_column _ (M Hm)). exact (D Hd).
Qed.

Lemma one_customer_per_user_witness :
  exists t,
    lookup "user_customer"
      (exec_all [Insert "user_customer" [None; Some (Int 1); Some (Text "cus_1")];
                 Insert "user_customer" [None; Some (Int 1); Some (Text "cus_2")];
                 Migrate;
                 Insert "user_customer" [None; Some (Int 2); Some (Text "cus_2")]]
                (fst (migrate [users]))) = Some t /\
    NoDup (column 1 (t_rows t)).
Proof.
  destruct (one_customer_per_user
              [Insert "user_customer" [None; Some (Int 1); Some (Text "cus_1")];
               Insert "user_customer" [None; Some (Int 1); Some (Text "cus_2")];
               Migrate;
               Insert "user_customer" [None; Some (Int 2); Some (Text "cus_2")]]
              [users] eq_refl) as [t [Lt [_ H]]].
  exists t. split; [exact Lt|]. apply (H 1). lia.
Defined.

(** X13: inserting never leaves a customer without its user.  After the
    migration has created the table, and after any inserts, accepted or
    refused, into any table, and any re-runs of the migration, each [user_id]
    stored in [user_customer] is among the values of [public.user (id)].
    Rows are only ever added here: no statement deletes or changes one. *)
Theorem customers_belong_to_users (ops : list Statement) (db : Database) :
  snd (migrate db) = Created ->
  exists t,
    lookup "user_customer" (exec_all ops (fst (migrate db))) = Some t /\
    forall v, In v (column 1 (t_rows t)) ->
              In v (referenced ("public.user", "id")%string
                               (exec_all ops (fst (migrate db)))).
Proof.
  intro Hc. unfold migrate, create_table_if_not_exists in Hc |- *.
  destruct (lookup (table_name user_customer) db) eqn:L; [discriminate Hc|].
  destruct (references_resolve user_customer db); [|discriminate Hc].
  simpl fst.
  destruct (empty_table_sound user_customer 1
              (db ++ [mkTable user_customer [] 1])) as [S0 R0].
  destruct (exec_all_keeps_table ops (db ++ [mkTable user_customer [] 1])
              "user_customer" (mkTable user_customer [] 1))
    as [t [Lt [Dt [St Rt]]]]; try assumption.
  { rewrite lookup_app. simpl in L. rewrite L. reflexivity. }
  exists t. split; [exact Lt|]. intros v Hv.
  assert (Hn : nth_error (table_columns (t_def t)) 1
               = Some (mkColumn "user_id" BIGINT false true true
                                (Some ("public.user", "id")%string))).
  { rewrite Dt. reflexivity. }
  destruct (Rt 1 _ _ v Hn eq_refl Hv) as [N|Hin]; [|exact Hin].
  exfalso. subst v.
  destruct (St 1 _ Hn) as [_ M]. exact (M eq_refl Hv).
Qed.

Lemma customers_belong_to_users_witness :
  snd (migrate [users]) = Created /\
  exists t,
    lookup "user_customer"
      (exec_all [Insert "user_customer" [None; Some (Int 9); Some (Text "cus_9")];
                 Insert "user_customer" [None; Some (Int 3); Some (Text "cus_3")]]
                (fst (migrate [users]))) = Some t /\
    forall v, In v (column 1 (t_rows t)) ->
              In v (referenced ("public.user", "id")%string
                      (exec_all
                         [Insert "user_customer"
                            [None; Some (Int 9); Some (Text "cus_9")];
                          Insert "user_customer"
                            [None; Some (Int 3); Some (Text "cus_3")]]
                         (fst (migrate [users])))).
Proof.
  split; [reflexivity|].
  apply (customers_belong_to_users
           [Insert "user_customer" [None; Some (Int 9); Some (Text "cus_9")];
            Insert "user_customer" [None; Some (Int 3); Some (Text "cus_3")]]
           [users]).
  reflexivity.
Defined.

(** X14: the migration can be run again safely.  When a table named
    [user_customer] is already there, whatever its columns and its rows, the
    migration changes nothing; so running it a second time changes nothing;
    and when it fails because [public.user (id)] is not there, it changes
    nothing either. *)
Theorem migration_runs_again (db : Database) :
  (forall t, lookup "user_customer" db = Some t ->
             migrate db = (db, AlreadyExists)) /\
  (snd (migrate db) = Created ->
   migrate (fst (migrate db)) = (fst (migrate db), AlreadyExists)) /\
  (snd (migrate db) <> Created -> fst (migrate db) = db) /\
  fst (migrate (fst (migrate db))) = fst (migrate db).
Proof.
  unfold migrate, create_table_if_not_exists. simpl table_name.
  split; [|split; [|split]].
  - intros t L. rewrite L. reflexivity.
  - destruct (lookup "user_customer" db) eqn:L; [discriminate|].
    destruct (references_resolve user_customer db); [|discriminate].
    intros _. simpl. rewrite lookup_app, L. reflexivity.
  - destruct (lookup "user_customer" db); [reflexivity|].
    destruct (references_resolve user_customer db); [|reflexivity].
    intro H. exfalso. apply H. reflexivity.
  - destruct (lookup "user_customer" db) eqn:L;
      [simpl; rewrite L; reflexivity|].
    destruct (references_resolve user_customer db) eqn:R; simpl.
    + rewrite lookup_app, L. reflexivity.
    + rewrite L, R. reflexivity.
Qed.

Lemma migration_runs_again_witness :
  snd (migrate [users]) = Created /\
  migrate (fst (migrate [users])) = (fst (migrate [users]), AlreadyExists).
Proof.
  split; [reflexivity|].
  apply (proj1 (proj2 (migration_runs_again [users]))). reflexivity.
Defined.

Lemma lookup_rows_replace (n name : string) (t0 : Table) (next : Z)
    (db : Database) :
  lookup name db = Some t0 ->
  option_map t_rows
    (lookup n (replace name (mkTable (t_def t0) (t_rows t0) next) db))
  = option_map t_rows (lookup n db).
Proof.
  intro L. rewrite lookup_replace by (simpl; exact (lookup_named name db t0 L)).
  destruct (lookup n db) as [t|] eqn:Ln; [|reflexivity]. simpl.
  destruct (named name t) eqn:N; [|reflexivity].
  assert (E : t = t0).
  { unfold named in N. apply String.eqb_eq in N.
    rewrite <- (lookup_named _ _ _ Ln) in Ln. rewrite N in Ln. congruence. }
  subst t. reflexivity.
Qed.

(** X15: [user_customer] refuses a row whose [user_id] is [NULL] or already
    has a customer, and a row whose [customer_id] is [NULL] or already
    belongs to a user, whatever [id] is given; the refused insert leaves the
    rows of every table as they were. *)
Theorem second_customer_is_refused
    (db : Database) (t : Table) (id : option Value) (user customer : Value)
    (n : string) :
  lookup "user_customer" db = Some t ->
  t_def t = user_customer ->
  user = Null \/ In user (column 1 (t_rows t)) \/
  customer = Null \/ In customer (column 2 (t_rows t)) ->
  snd (insert "user_customer" [id; Some user; Some customer] db)
    = Some "constraint violated"%string /\
  option_map t_rows
    (lookup n (fst (insert "user_customer" [id; Some user; Some customer] db)))
  = option_map t_rows (lookup n db).
Proof.
  intros L D H. unfold insert. rewrite L, D. simpl negb. cbv iota.
  assert (A : admits_all db t 0 (table_columns user_customer)
                (fill (t_next t) (table_columns user_customer)
                      [id; Some user; Some customer]) = false).
  { simpl. apply andb_false_iff. right.
    destruct H as [H|[H|[H|H]]].
    - subst user. reflexivity.
    - apply andb_false_iff. left. unfold admits. simpl.
      apply member_In in H. rewrite H.
      destruct (fits BIGINT user); [|reflexivity].
      destruct user; reflexivity.
    - subst customer. apply andb_false_iff. right. reflexivity.
    - apply andb_false_iff. right. unfold admits. simpl.
      apply member_In in H. rewrite H.
      destruct (fits TEXT customer); [|reflexivity].
      destruct customer; reflexivity. }
  rewrite A. simpl. split; [reflexivity|].
  rewrite <- D. apply lookup_rows_replace. exact L.
Qed.

Lemma second_customer_is_refused_witness :
  let db := exec_all [Migrate;
                      Insert "user_customer"
                        [None; Some (Int 1); Some (Text "cus_1")]] [users] in
  snd (insert "user_customer" [None; Some (Int 1); Some (Text "cus_2")] db)
    = Some "constraint violated"%string.
Proof.
  cbv zeta.
  apply (second_customer_is_refused
           (exec_all [Migrate;
                      Insert "user_customer"
                        [None; Some (Int 1); Some (Text "cus_1")]] [users])
           (mkTable user_customer [[Int 1; Int 1; Text "cus_1"]] 2)
           None (Int 1) (Text "cus_2") "user_customer").
  - reflexivity.
  - reflexivity.
  - right. left. left. reflexivity.
Defined.
